(** * planx-plugin-http: the HTTP sink plugin, embedded and verified

    A shallow embedding of [internal/plugin/sink.go]: the session handlers
    ([CreateSession], [CloseSession]), the streaming [Write] loop and the
    batch delivery function [sendBatch].

    Conventions.
    - A Go [string] is a [string] (a sequence of bytes); a Go [[]byte] is a
      [list byte].  The payload of a record keeps Go's difference between
      the nil slice and an empty one ([ByteSlice]), because
      [json.RawMessage] renders the two differently.
    - A Go [map[string]string] is a [gmap string string]; the order in which
      [range] visits it is not fixed by the language, so every function that
      ranges over a map takes the visiting order from the environment and
      the theorems hold for every order.
    - A Go [error] is its message; [(T, error)] results are sums with the
      error on the left.
    - Everything the plugin calls but does not define (the JSON codec, the
      duration parser, the batch decoder, the HTTP transport, the RPC
      stream, the identifier generator) is a field of [Externals]; the
      effectful ones thread an abstract [World].
    - Logging has no effect on any result and is left out. *)

From Stdlib Require Import ZArith DecimalString.
From Stdlib.Strings Require Import Byte Ascii.
From stdpp Require Import ssreflect gmap strings list fin_maps.

Set Warnings "-rewrite-rw".

Local Open Scope Z_scope.

(** ** Bytes and strings *)

(** Go's [[]byte]: [None] is the nil slice. *)
Definition ByteSlice : Type := option (list byte).

Definition slice_bytes (s : ByteSlice) : list byte := default [] s.

(** [string(b)] for a byte slice. *)
Definition string_of_bytes (b : list byte) : string := String.string_of_list_byte b.

(** [fmt.Sprintf("%d", n)]. *)
Definition fmt_d (n : Z) : string := NilZero.string_of_int (Z.to_int n).

Definition byte_newline : byte := x0a.
Definition byte_lbracket : byte := x5b.
Definition byte_rbracket : byte := x5d.
Definition byte_comma : byte := x2c.

(** [s] occurs in [t]. *)
Definition contains (t s : string) : Prop := ∃ pre post, t = pre +:+ s +:+ post.

(** ** Data model *)

(** [Config] of sink.go. *)
Record Config := mkConfig {
  Endpoint : string;
  Method : string;
  Headers : gmap string string;
  Timeout : string;
  BatchFormat : string
}.

(** A record of a decoded batch ([batch.Batch] of the SDK): only the payload
    is read. *)
Record Rec := mkRec { Payload : ByteSlice }.

Record Batch := mkBatch { Records : list Rec }.

(** [time.Duration], in nanoseconds. *)
Definition Duration : Type := Z.
Definition time_Second : Duration := 1000000000.

(** [http.Client]: the plugin sets the timeout only. *)
Record Client := mkClient { ClientTimeout : Duration }.

(** [http.Header]: canonical key to values. *)
Definition Header : Type := gmap string (list string).

Record Request := mkRequest {
  ReqMethod : string;
  ReqURL : string;
  ReqBody : list byte;
  ReqHeader : Header
}.

(** What the plugin reads of an [http.Response]: the status and the result
    [(data, err)] of [io.ReadAll] on its body. *)
Record Response := mkResponse {
  StatusCode : Z;
  BodyRead : list byte * option string
}.

Record AckResponse := mkAck { Success : bool; Error : string }.

Record WriteRequest := mkWriteRequest {
  WSessionId : string;
  PackedBatch : list byte
}.

Record SessionCreateRequest := mkCreateRequest {
  TenantId : string;
  ConfigJson : list byte
}.

(** The values the plugin stores in a session's untyped data slots. *)
Inductive Value :=
| VClient (c : Client)
| VConfig (cfg : Config).

(** ** The environment *)

Record Externals := mkExternals {
  World : Type;
  (** [json.Unmarshal(data, &cfg)] into a zero [Config]. *)
  json_Unmarshal : list byte → string + Config;
  (** [time.ParseDuration]. *)
  time_ParseDuration : string → string + Duration;
  (** [batch.UnpackBatch]. *)
  batch_UnpackBatch : list byte → string + Batch;
  (** How [json.Marshal] renders one [json.RawMessage] element (validation
      and compaction of the raw bytes; "null" for the nil slice). *)
  json_encodeRaw : ByteSlice → string + list byte;
  (** The error, if any, of [http.NewRequestWithContext] for a method and
      a URL. *)
  http_NewRequest_check : string → string → option string;
  (** [client.Do(req)]. *)
  client_Do : World → Client → Request → World * (string + Response);
  (** [stream.Send(ack)]. *)
  stream_Send : World → AckResponse → World * option string;
  (** The fresh identifier the session manager draws. *)
  session_newID : World → World * string;
  (** The order in which [range] visits a header map. *)
  range_order : gmap string string → list (string * string)
}.

(** [range_order] visits every entry exactly once. *)
Definition range_ok (X : Externals) : Prop :=
  ∀ m, range_order X m ≡ₚ map_to_list m.

(** ** Batch formatting ([sendBatch], the [switch cfg.BatchFormat]) *)

(** [bytes.Buffer]: [Write] and [WriteByte] append. *)
Definition Buffer : Type := list byte.
Definition buf_Write (buf : Buffer) (p : ByteSlice) : Buffer := buf ++ slice_bytes p.
Definition buf_WriteByte (buf : Buffer) (c : byte) : Buffer := buf ++ [c].

(** The [ndjson] loop, from an empty buffer. *)
Definition ndjson_loop (buf : Buffer) (rs : list Rec) : Buffer :=
  foldl (λ buf r, buf_WriteByte (buf_Write buf (Payload r)) byte_newline) buf rs.

Definition format_ndjson (b : Batch) : list byte := ndjson_loop [] (Records b).

(** [payloads := make([]json.RawMessage, len(b.Records))] is a slice of nil
    messages; the loop then stores record [i]'s payload at index [i]. *)
Definition payloads_loop (rs : list Rec) : list ByteSlice :=
  foldl (λ ps ir, <[ir.1 := Payload ir.2]> ps)
        (replicate (length rs) None) (imap (λ i r, (i, r)) rs).

(** [json.Marshal] of a non-nil [[]json.RawMessage]: the elements in order,
    separated by commas, between brackets; the first element that fails to
    encode fails the call. *)
Fixpoint encode_elems (X : Externals) (first : bool) (ps : list ByteSlice)
  : string + list byte :=
  match ps with
  | [] => inr []
  | p :: ps' =>
      match json_encodeRaw X p with
      | inl e => inl e
      | inr enc =>
          match encode_elems X false ps' with
          | inl e => inl e
          | inr rest => inr ((if first then [] else [byte_comma]) ++ enc ++ rest)
          end
      end
  end.

Definition json_Marshal (X : Externals) (ps : list ByteSlice) : string + list byte :=
  match encode_elems X true ps with
  | inl e => inl e
  | inr elems => inr ([byte_lbracket] ++ elems ++ [byte_rbracket])
  end.

Definition format_json_array (X : Externals) (b : Batch) : string + list byte :=
  json_Marshal X (payloads_loop (Records b)).

(** The body of the request, or the error [sendBatch] returns. *)
Definition format_batch (X : Externals) (cfg : Config) (b : Batch) : string + list byte :=
  if decide (BatchFormat cfg = "ndjson") then inr (format_ndjson b)
  else match format_json_array X b with
       | inl e => inl ("failed to marshal batch: " +:+ e)
       | inr body => inr body
       end.

(** ** Request construction *)

(** [http.MethodPost]. *)
Definition http_MethodPost : string := "POST".

(** [method := cfg.Method; if method == "" { method = http.MethodPost }]. *)
Definition request_method (cfg : Config) : string :=
  if decide (Method cfg = "") then http_MethodPost else Method cfg.

(** The bytes a header field name may hold (the token characters of
    RFC 7230), as [net/textproto] tests them. *)
Definition validHeaderFieldByte (c : ascii) : bool :=
  let n := Ascii.N_of_ascii c in
  ((48 <=? n) && (n <=? 57) || (65 <=? n) && (n <=? 90) || (97 <=? n) && (n <=? 122)
   || bool_decide (c ∈ String.list_ascii_of_string "!#$%&'*+-.^_`|~"))%N.

Definition is_lower (c : ascii) : bool :=
  let n := Ascii.N_of_ascii c in ((97 <=? n) && (n <=? 122))%N.
Definition is_upper (c : ascii) : bool :=
  let n := Ascii.N_of_ascii c in ((65 <=? n) && (n <=? 90))%N.
Definition to_upper (c : ascii) : ascii := Ascii.ascii_of_N (Ascii.N_of_ascii c - 32).
Definition to_lower (c : ascii) : ascii := Ascii.ascii_of_N (Ascii.N_of_ascii c + 32).

(** The canonicalizing loop: upper case at the start and after each dash,
    lower case elsewhere. *)
Fixpoint canonical_loop (upper : bool) (s : string) : string :=
  match s with
  | EmptyString => EmptyString
  | String c s' =>
      let c' := if upper && is_lower c then to_upper c
                else if negb upper && is_upper c then to_lower c
                else c in
      String c' (canonical_loop (bool_decide (c' = "-"%char)) s')
  end.

(** [textproto.CanonicalMIMEHeaderKey]: a key holding a byte that is not a
    token character is returned unchanged. *)
Definition CanonicalMIMEHeaderKey (s : string) : string :=
  if forallb validHeaderFieldByte (String.list_ascii_of_string s)
  then canonical_loop true s else s.

(** [Header.Set]: the values under the canonical key are replaced by the
    single value. *)
Definition Header_Set (h : Header) (key value : string) : Header :=
  <[CanonicalMIMEHeaderKey key := [value]]> h.

(** [Header.Get]: the first value under the canonical key, or "". *)
Definition Header_Get (h : Header) (key : string) : string :=
  match h !! CanonicalMIMEHeaderKey key with
  | Some (v :: _) => v
  | _ => ""
  end.

(** [for k, v := range cfg.Headers { req.Header.Set(k, v) }], in the
    visiting order [kvs]. *)
Definition apply_headers (h : Header) (kvs : list (string * string)) : Header :=
  foldl (λ h kv, Header_Set h kv.1 kv.2) h kvs.

(** The header of the request [sendBatch] sends. *)
Definition request_headers (X : Externals) (cfg : Config) : Header :=
  apply_headers (Header_Set ∅ "Content-Type" "application/json")
                (range_order X (Headers cfg)).

(** ** Result classification *)

(** [if resp.StatusCode >= 400 { respBody, _ := io.ReadAll(resp.Body); ... }]. *)
Definition classify (resp : Response) : option string :=
  if decide (400 ≤ StatusCode resp)
  then let respBody := (BodyRead resp).1 in
       Some ("HTTP " +:+ fmt_d (StatusCode resp) +:+ ": " +:+ string_of_bytes respBody)
  else None.

(** ** [sendBatch] *)

(** What a call of [sendBatch] did: the request it handed to [client.Do],
    if it got that far, and the error it returned ([None] is nil). *)
Record Delivery := mkDelivery {
  sent : option Request;
  result : option string
}.

Definition sendBatch (X : Externals) (w : World X) (client : Client)
    (cfg : Config) (b : Batch) : World X * Delivery :=
  let method := request_method cfg in
  match format_batch X cfg b with
  | inl e => (w, mkDelivery None (Some e))
  | inr body =>
      match http_NewRequest_check X method (Endpoint cfg) with
      | Some e => (w, mkDelivery None (Some ("failed to create request: " +:+ e)))
      | None =>
          let req := mkRequest method (Endpoint cfg) body (request_headers X cfg) in
          match client_Do X w client req with
          | (w', inl e) => (w', mkDelivery (Some req) (Some ("HTTP request failed: " +:+ e)))
          | (w', inr resp) => (w', mkDelivery (Some req) (classify resp))
          end
      end
  end.

(** ** The session manager *)

Record Session := mkSession {
  ID : string;
  STenantID : string;
  SConfig : list byte;
  Data : gmap string Value
}.

(** Modelled from the spec: [session.Manager] of the SDK is not part of this
    repository; section 4.1 describes it as a mapping from identifier to
    session state with [Create] (stores the new session under a fresh
    identifier), [Get] (fails when no session has that identifier) and
    [Close] (removes the state, fails on an unknown identifier). *)
Definition Manager_Create (X : Externals) (w : World X) (mgr : gmap string Session)
    (tenant : string) (config : list byte)
  : World X * gmap string Session * Session :=
  let (w', id) := session_newID X w in
  let sess := mkSession id tenant config ∅ in
  (w', <[id := sess]> mgr, sess).

(** Modelled from the spec: [Get(sessionId) → Session | NotFoundError]. *)
Definition Manager_Get (mgr : gmap string Session) (id : string) : string + Session :=
  match mgr !! id with
  | Some sess => inr sess
  | None => inl ("session not found: " +:+ id)
  end.

(** Modelled from the spec: [Close(sessionId) → () | NotFoundError]. *)
Definition Manager_Close (mgr : gmap string Session) (id : string)
  : gmap string Session * option string :=
  match mgr !! id with
  | Some _ => (delete id mgr, None)
  | None => (mgr, Some ("session not found: " +:+ id))
  end.

(** Modelled from the spec: [sess.SetData(key, v)].  [sess] is the pointer
    the manager holds, so the store is seen through the manager. *)
Definition Session_SetData (mgr : gmap string Session) (id key : string) (v : Value)
  : gmap string Session :=
  alter (λ s, mkSession (ID s) (STenantID s) (SConfig s) (<[key := v]> (Data s))) id mgr.

(** Modelled from the spec: [sess.GetData(key)]. *)
Definition Session_GetData (sess : Session) (key : string) : option Value :=
  Data sess !! key.

(** ** [CreateSession] *)

(** The timeout of the session's client. *)
Definition resolve_timeout (X : Externals) (cfg : Config) : Duration :=
  let timeout := 30 * time_Second in
  if decide (Timeout cfg ≠ "") then
    match time_ParseDuration X (Timeout cfg) with
    | inr d => d
    | inl _ => timeout
    end
  else timeout.

(** The result is the error, or the [SessionId] of the response. *)
Definition CreateSession (X : Externals) (w : World X) (mgr : gmap string Session)
    (req : SessionCreateRequest)
  : World X * gmap string Session * (string + string) :=
  match json_Unmarshal X (ConfigJson req) with
  | inl e => (w, mgr, inl ("invalid config: " +:+ e))
  | inr cfg =>
      if decide (Endpoint cfg = "") then (w, mgr, inl "endpoint is required")
      else
        let '(w1, mgr1, sess) := Manager_Create X w mgr (TenantId req) (ConfigJson req) in
        let client := mkClient (resolve_timeout X cfg) in
        let mgr2 := Session_SetData mgr1 (ID sess) "http_client" (VClient client) in
        let mgr3 := Session_SetData mgr2 (ID sess) "config" (VConfig cfg) in
        (w1, mgr3, inr (ID sess))
  end.

(** ** [CloseSession] *)

(** Both branches on the manager's error only log; the handler returns
    [&planxv1.Empty{}, nil]. *)
Definition CloseSession (mgr : gmap string Session) (sessionId : string)
  : gmap string Session * (string + unit) :=
  let '(mgr', _) := Manager_Close mgr sessionId in
  (mgr', inr ()).

(** ** [Write] *)

(** How a handler ends: it returns (an error, or nil), or a failed type
    assertion or nil dereference panics. *)
Inductive Outcome :=
| Return (err : option string)
| Panic.

(** The inbound side of a stream: the messages [Recv] yields, then
    [io.EOF] ([None]) or a receive error. *)
Record Stream := mkStream {
  incoming : list WriteRequest;
  ending : option string
}.

(** The three local variables of [Write]. *)
Record WriteState := mkWriteState {
  currentSession : option Session;
  cur_cfg : Config;
  cur_client : option Client
}.

Definition zero_Config : Config := mkConfig "" "" ∅ "" "".
Definition init_WriteState : WriteState := mkWriteState None zero_Config None.

Inductive Resolved :=
| Bound (st : WriteState)
| ResolveError (err : string)
| ResolvePanic.

(** [if currentSession == nil { ... }]: the lookup, and the two type
    assertions on the session's data. *)
Definition resolve_session (mgr : gmap string Session) (st : WriteState)
    (req : WriteRequest) : Resolved :=
  match currentSession st with
  | Some _ => Bound st
  | None =>
      match Manager_Get mgr (WSessionId req) with
      | inl e => ResolveError e
      | inr sess =>
          match Session_GetData sess "http_client" with
          | Some (VClient client) =>
              match Session_GetData sess "config" with
              | Some (VConfig cfg) => Bound (mkWriteState (Some sess) cfg (Some client))
              | _ => ResolvePanic
              end
          | _ => ResolvePanic
          end
      end
  end.

(** What [Write] did: the acknowledgments [Send] accepted, in order, and
    how the handler ended. *)
Record WriteRun := mkWriteRun {
  acks : list AckResponse;
  ended : Outcome
}.

(** [stream.Send(ack)], then the rest of the loop [k] unless it failed. *)
Definition send_then (X : Externals) (w : World X) (sofar : list AckResponse)
    (ack : AckResponse)
    (k : World X → list AckResponse → World X * WriteRun) : World X * WriteRun :=
  match stream_Send X w ack with
  | (w', Some sendErr) => (w', mkWriteRun sofar (Return (Some sendErr)))
  | (w', None) => k w' (sofar ++ [ack])
  end.

(** The [for] loop of [Write], one iteration per received message. *)
Fixpoint Write_loop (X : Externals) (mgr : gmap string Session)
    (msgs : list WriteRequest) (fin : option string)
    (w : World X) (st : WriteState) (sofar : list AckResponse) : World X * WriteRun :=
  match msgs with
  | [] => (w, mkWriteRun sofar (Return fin))
  | req :: rest =>
      match resolve_session mgr st req with
      | ResolveError e => (w, mkWriteRun sofar (Return (Some e)))
      | ResolvePanic => (w, mkWriteRun sofar Panic)
      | Bound st' =>
          match batch_UnpackBatch X (PackedBatch req) with
          | inl e =>
              send_then X w sofar (mkAck false ("failed to unpack batch: " +:+ e))
                        (λ w' sofar', Write_loop X mgr rest fin w' st' sofar')
          | inr b =>
              match cur_client st' with
              | None => (w, mkWriteRun sofar Panic)
              | Some client =>
                  let (w1, d) := sendBatch X w client (cur_cfg st') b in
                  match result d with
                  | Some err =>
                      send_then X w1 sofar (mkAck false err)
                                (λ w' sofar', Write_loop X mgr rest fin w' st' sofar')
                  | None =>
                      send_then X w1 sofar (mkAck true "")
                                (λ w' sofar', Write_loop X mgr rest fin w' st' sofar')
                  end
              end
          end
      end
  end.

Definition Write (X : Externals) (mgr : gmap string Session) (s : Stream)
    (w : World X) : World X * WriteRun :=
  Write_loop X mgr (incoming s) (ending s) w init_WriteState [].

(** ** Specifications of the two encodings, in the words of the spec *)

(** [ndjson]: each payload followed by one newline, in input order. *)
Definition ndjson_spec (rs : list Rec) : list byte :=
  concat (map (λ r, slice_bytes (Payload r) ++ [byte_newline]) rs).

(** The elements joined by commas. *)
Fixpoint join_commas (elems : list (list byte)) : list byte :=
  match elems with
  | [] => []
  | [e] => e
  | e :: rest => e ++ [byte_comma] ++ join_commas rest
  end.

(** A JSON array literal with the given element texts. *)
Definition json_array_spec (elems : list (list byte)) : list byte :=
  [byte_lbracket] ++ join_commas elems ++ [byte_rbracket].

(** The codec's rendering of every payload, or the first error. *)
Fixpoint render_all (X : Externals) (ps : list ByteSlice) : string + list (list byte) :=
  match ps with
  | [] => inr []
  | p :: ps' =>
      match json_encodeRaw X p with
      | inl e => inl e
      | inr enc =>
          match render_all X ps' with
          | inl e => inl e
          | inr encs => inr (enc :: encs)
          end
      end
  end.

(** The errors [CreateSession] returns before it creates anything. *)
Definition is_ConfigError (msg : string) : Prop :=
  msg = "endpoint is required" ∨ ∃ e, msg = "invalid config: " +:+ e.

(** ** Auxiliary definitions used in the statements *)

(** Every element preceded by a comma. *)
Definition comma_each (elems : list (list byte)) : list byte :=
  concat (map (λ e, byte_comma :: e) elems).

(** The session [CreateSession] stores for an accepted configuration. *)
Definition created_session (X : Externals) (id : string) (req : SessionCreateRequest)
    (cfg : Config) : Session :=
  mkSession id (TenantId req) (ConfigJson req)
    (<["config" := VConfig cfg]>
       (<["http_client" := VClient (mkClient (resolve_timeout X cfg))]> ∅)).




(** A session as [CreateSession] leaves it: both data slots hold a value of
    the type [Write] asserts. *)
Definition provisioned (sess : Session) : Prop :=
  ∃ client cfg, Session_GetData sess "http_client" = Some (VClient client)
                ∧ Session_GetData sess "config" = Some (VConfig cfg).

Definition registry_ok (mgr : gmap string Session) : Prop :=
  map_Forall (λ _ sess, provisioned sess) mgr.

(** The registries the handlers can produce from the empty one. *)
Inductive reachable (X : Externals) : gmap string Session → Prop :=
| reach_new : reachable X ∅
| reach_create w mgr req :
    reachable X mgr → reachable X (CreateSession X w mgr req).1.2
| reach_close mgr id :
    reachable X mgr → reachable X (CloseSession mgr id).1.

(** A bound [Write] state has its client. *)
Definition state_ok (st : WriteState) : Prop :=
  is_Some (currentSession st) → is_Some (cur_client st).

(** ** Definitions for the further properties *)

(** [NewHTTPSink]: a sink whose session manager holds no session. *)
Definition NewHTTPSink : gmap string Session := ∅.

(** [s] starts with [p]. *)
Definition has_prefix (p s : string) : Prop := ∃ rest, s = p +:+ rest.

(** The four ways [sendBatch] words an error. *)
Definition sendBatch_error_prefixes : list string :=
  ["failed to marshal batch: "; "failed to create request: ";
   "HTTP request failed: "; "HTTP "].

(** A reader of ndjson bodies: the lines that end in a newline, without the
    newline. [cur] holds the bytes of the line being read. *)
Fixpoint split_lines (cur : list byte) (bs : list byte) : list (list byte) :=
  match bs with
  | [] => []
  | c :: bs' =>
      if Byte.eqb c byte_newline then cur :: split_lines [] bs'
      else split_lines (cur ++ [c]) bs'
  end.

Definition newline_free (p : list byte) : Prop := byte_newline ∉ p.

(** A session as [CreateSession] stores it: the raw configuration decodes to
    the stored one, whose endpoint is not empty, and the stored client has
    the timeout resolved from it. *)
Definition session_valid (X : Externals) (sess : Session) : Prop :=
  ∃ cfg, json_Unmarshal X (SConfig sess) = inr cfg
         ∧ Endpoint cfg ≠ ""
         ∧ Session_GetData sess "config" = Some (VConfig cfg)
         ∧ Session_GetData sess "http_client"
           = Some (VClient (mkClient (resolve_timeout X cfg))).

(** The stream accepts every acknowledgment. *)
Definition sends_accepted (X : Externals) : Prop :=
  ∀ w ack, (stream_Send X w ack).2 = None.

(** The stream refuses every acknowledgment. *)
Definition sends_refused (X : Externals) : Prop :=
  ∀ w ack, is_Some (stream_Send X w ack).2.

(** A positive acknowledgment has no error text, a negative one has some. *)
Definition ack_well_formed (a : AckResponse) : Prop :=
  (Success a = true ∧ Error a = "") ∨ (Success a = false ∧ Error a ≠ "").

(** No two configured header keys share a canonical form. *)
Definition canonical_distinct (m : gmap string string) : Prop :=
  ∀ k1 k2, is_Some (m !! k1) → is_Some (m !! k2) →
           CanonicalMIMEHeaderKey k1 = CanonicalMIMEHeaderKey k2 → k1 = k2.

(** The acknowledgment [Write] sends for the outcome of a delivery. *)
Definition ack_of_result (r : option string) : AckResponse :=
  match r with
  | Some err => mkAck false err
  | None => mkAck true ""
  end.

(** ** A concrete environment

    One instance of [Externals], small enough to evaluate: the codec knows a
    few sample configurations, the transport answers from a script, and
    [range] visits a header map in the order of [map_to_list]. *)
Module Demo.

Definition bytes (s : string) : list byte := String.list_byte_of_string s.

(** A JSON string literal: the text between two double quotes. *)
Definition jstr (s : string) : string :=
  String (Ascii.ascii_of_N 34) s +:+ String (Ascii.ascii_of_N 34) "".

(** The scenario of the spec: PUT to http://x/ingest, one header, ndjson. *)
Definition scenario_json : string :=
  "{" +:+ jstr "endpoint" +:+ ":" +:+ jstr "http://x/ingest" +:+ ","
      +:+ jstr "method" +:+ ":" +:+ jstr "PUT" +:+ ","
      +:+ jstr "headers" +:+ ":{" +:+ jstr "X-Tenant" +:+ ":" +:+ jstr "t1" +:+ "},"
      +:+ jstr "batch_format" +:+ ":" +:+ jstr "ndjson" +:+ "}".
Definition scenario_cfg : Config :=
  mkConfig "http://x/ingest" "PUT" {["X-Tenant" := "t1"]} "" "ndjson".

(** Only an endpoint. *)
Definition plain_json : string :=
  "{" +:+ jstr "endpoint" +:+ ":" +:+ jstr "http://x/ingest" +:+ "}".
Definition plain_cfg : Config := mkConfig "http://x/ingest" "" ∅ "" "".

(** A timeout that is not a duration. *)
Definition lenient_json : string :=
  "{" +:+ jstr "endpoint" +:+ ":" +:+ jstr "http://x/ingest" +:+ ","
      +:+ jstr "timeout" +:+ ":" +:+ jstr "not-a-duration" +:+ "}".
Definition lenient_cfg : Config :=
  mkConfig "http://x/ingest" "" ∅ "not-a-duration" "".

(** A timeout that parses. *)
Definition timed_json : string :=
  "{" +:+ jstr "endpoint" +:+ ":" +:+ jstr "http://x/ingest" +:+ ","
      +:+ jstr "timeout" +:+ ":" +:+ jstr "5s" +:+ "}".
Definition timed_cfg : Config := mkConfig "http://x/ingest" "" ∅ "5s" "".

(** A method outside POST, PUT and PATCH. *)
Definition delete_cfg : Config := mkConfig "http://x/ingest" "DELETE" ∅ "" "".

(** Two header keys with one canonical form. *)
Definition clash_cfg : Config :=
  mkConfig "http://x/ingest" "" {["X-A" := "1"; "x-a" := "2"]} "" "".

(** A lower-case content-type key. *)
Definition lower_ct_cfg : Config :=
  mkConfig "http://x/ingest" "" {["content-type" := "text/plain"]} "" "".

Definition samples : gmap string Config :=
  {[ scenario_json := scenario_cfg; plain_json := plain_cfg;
     lenient_json := lenient_cfg; timed_json := timed_cfg;
     "{}" := zero_Config ]}.

Definition Unmarshal (data : list byte) : string + Config :=
  match samples !! string_of_bytes data with
  | Some cfg => inr cfg
  | None => inl "invalid character"
  end.

Definition ParseDuration (s : string) : string + Duration :=
  if decide (s = "5s") then inr (5 * time_Second)
  else if decide (s = "30s") then inr (30 * time_Second)
  else inl ("time: invalid duration " +:+ s).

(** The packed form of the demo: a first byte 0xff does not decode;
    anything else is a batch of one record with those bytes. *)
Definition UnpackBatch (packed : list byte) : string + Batch :=
  match packed with
  | xff :: _ => inl "bad magic"
  | _ => inr (mkBatch [mkRec (Some packed)])
  end.

(** The nil message is null, the empty one is not JSON, any other is taken
    to be compact already. *)
Definition encodeRaw (p : ByteSlice) : string + list byte :=
  match p with
  | None => inr (bytes "null")
  | Some [] => inl "unexpected end of JSON input"
  | Some raw => inr raw
  end.

(** A method has to be a token. *)
Definition NewRequest_check (method url : string) : option string :=
  if forallb validHeaderFieldByte (String.list_ascii_of_string method)
  then None else Some ("net/http: invalid method " +:+ method).

Record DemoWorld := mkWorld {
  script : list (string + Response);
  minted : nat
}.

(** The transport answers with the next entry of the script. *)
Definition Do (w : DemoWorld) (client : Client) (req : Request)
  : DemoWorld * (string + Response) :=
  match script w with
  | [] => (w, inl "connection refused")
  | r :: rest => (mkWorld rest (minted w), r)
  end.

Definition Send (w : DemoWorld) (ack : AckResponse) : DemoWorld * option string :=
  (w, None).

Definition newID (w : DemoWorld) : DemoWorld * string :=
  (mkWorld (script w) (S (minted w)), "sess-" +:+ fmt_d (Z.of_nat (minted w))).

Definition X : Externals :=
  mkExternals DemoWorld Unmarshal ParseDuration UnpackBatch encodeRaw
              NewRequest_check Do Send newID map_to_list.

Definition ok_200 : Response := mkResponse 200 ([], None).
Definition err_500 : Response := mkResponse 500 (bytes "boom", None).
(** A body whose read broke off after three bytes. *)
Definition cut_500 : Response := mkResponse 500 (bytes "par", Some "unexpected EOF").

Definition w0 : DemoWorld := mkWorld [inr ok_200] 0.
Definition client30 : Client := mkClient (30 * time_Second).

(** The batch [{"a":1}, {"b":2}] of the scenario. *)
Definition rec_a : Rec := mkRec (Some (bytes ("{" +:+ jstr "a" +:+ ":1}"))).
Definition rec_b : Rec := mkRec (Some (bytes ("{" +:+ jstr "b" +:+ ":2}"))).
Definition batch_ab : Batch := mkBatch [rec_a; rec_b].

Definition create_req (json : string) : SessionCreateRequest :=
  mkCreateRequest "t1" (bytes json).

(** A registry with one session. *)
Definition mgr1 : gmap string Session :=
  {["sess-0" := created_session X "sess-0" (create_req plain_json) plain_cfg]}.

End Demo.

(** ** Variants of the concrete environment *)

(** A stream that refuses every acknowledgment. *)
Definition Send_refusing (w : Demo.DemoWorld) (ack : AckResponse)
  : Demo.DemoWorld * option string :=
  (w, Some "transport is closing").

Definition X_refusing : Externals :=
  mkExternals Demo.DemoWorld Demo.Unmarshal Demo.ParseDuration Demo.UnpackBatch
              Demo.encodeRaw Demo.NewRequest_check Demo.Do Send_refusing Demo.newID
              map_to_list.

(** A [range] that visits a map in the opposite order. *)
Definition X_reversed : Externals :=
  mkExternals Demo.DemoWorld Demo.Unmarshal Demo.ParseDuration Demo.UnpackBatch
              Demo.encodeRaw Demo.NewRequest_check Demo.Do Demo.Send Demo.newID
              (λ m, reverse (map_to_list m)).

(** Two headers with different canonical forms. *)
Definition two_headers_cfg : Config :=
  mkConfig "http://x/ingest" "" {["X-Tenant" := "t1"; "authorization" := "Bearer k"]} "" "".

(** A method that is not a token. *)
Definition bad_method_cfg : Config := mkConfig "http://x/ingest" "BAD METHOD" ∅ "" "".

(** A record whose payload is the empty, non-nil slice. *)
Definition rec_empty : Rec := mkRec (Some []).

(** * Theorems *)

(** ** The ndjson encoding *)

Lemma ndjson_loop_app buf rs : ndjson_loop buf rs = buf ++ ndjson_spec rs.
Proof.
  revert buf. induction rs as [|r rs IH]; intros buf.
  - by rewrite /ndjson_spec /= app_nil_r.
  - rewrite /ndjson_loop /=. fold (ndjson_loop (buf_WriteByte (buf_Write buf (Payload r)) byte_newline) rs).
    rewrite IH /buf_WriteByte /buf_Write /ndjson_spec /=. by rewrite -!app_assoc.
Qed.

Lemma format_ndjson_spec b : format_ndjson b = ndjson_spec (Records b).
Proof. by rewrite /format_ndjson ndjson_loop_app. Qed.

Lemma ndjson_spec_length rs :
  length (ndjson_spec rs)
  = (sum_list (map (λ r, length (slice_bytes (Payload r))) rs) + length rs)%nat.
Proof.
  induction rs as [|r rs IH]; [done|].
  rewrite /ndjson_spec /= !length_app /=. rewrite /ndjson_spec in IH. lia.
Qed.

(** What [sendBatch] does once the body is formatted. *)
Lemma sendBatch_formatted X w client cfg b body :
  format_batch X cfg b = inr body →
  sendBatch X w client cfg b =
    match http_NewRequest_check X (request_method cfg) (Endpoint cfg) with
    | Some e => (w, mkDelivery None (Some ("failed to create request: " +:+ e)))
    | None =>
        let req := mkRequest (request_method cfg) (Endpoint cfg) body
                             (request_headers X cfg) in
        match client_Do X w client req with
        | (w', inl e) => (w', mkDelivery (Some req) (Some ("HTTP request failed: " +:+ e)))
        | (w', inr resp) => (w', mkDelivery (Some req) (classify resp))
        end
    end.
Proof. intros Hf. by rewrite /sendBatch Hf. Qed.

(** Every request [sendBatch] hands to the transport carries the formatted
    body, the resolved method, the endpoint and the computed header. *)
Lemma sendBatch_sent X w client cfg b req :
  sent (sendBatch X w client cfg b).2 = Some req →
  ∃ body, format_batch X cfg b = inr body ∧
    req = mkRequest (request_method cfg) (Endpoint cfg) body (request_headers X cfg).
Proof.
  rewrite /sendBatch. destruct (format_batch X cfg b) as [e|body]; [done|].
  destruct (http_NewRequest_check _ _ _); [done|].
  destruct (client_Do _ _ _ _) as [w' [e|resp]]; simpl; intros [= <-]; eauto.
Qed.

(** C1. With [batch_format = "ndjson"], the body of the outbound request is
    the concatenation, in input order, of each record's payload followed by
    one newline byte: nothing before the first record and exactly one extra
    byte per record. *)
Theorem ndjson_body_is_payload_lines (X : Externals) (w : World X) (client : Client)
    (cfg : Config) (b : Batch) :
  BatchFormat cfg = "ndjson" →
  format_batch X cfg b = inr (ndjson_spec (Records b))
  ∧ (∀ req, sent (sendBatch X w client cfg b).2 = Some req →
            ReqBody req = ndjson_spec (Records b))
  ∧ length (ndjson_spec (Records b))
    = (sum_list (map (λ r, length (slice_bytes (Payload r))) (Records b))
       + length (Records b))%nat.
Proof.
  intros Hfmt.
  assert (Hbody : format_batch X cfg b = inr (ndjson_spec (Records b))).
  { rewrite /format_batch decide_True //. by rewrite format_ndjson_spec. }
  split_and!; [done| |apply ndjson_spec_length].
  intros req Hsent. apply sendBatch_sent in Hsent as (body & Hb & ->).
  rewrite Hbody in Hb. by injection Hb as <-.
Qed.

(** ** The JSON array encoding *)

(** The copy loop fills index [i] with record [i]'s payload. *)
Lemma payloads_loop_from (filled : list ByteSlice) (rs : list Rec) :
  foldl (λ ps (ir : nat * Rec), <[ir.1 := Payload ir.2]> ps)
        (filled ++ replicate (length rs) None)
        (imap (λ i r, ((length filled + i)%nat, r)) rs)
  = filled ++ map Payload rs.
Proof.
  revert filled. induction rs as [|r rs IH]; intros filled; [done|].
  rewrite imap_cons /=.
  replace (<[(length filled + 0)%nat := Payload r]> (filled ++ None :: replicate (length rs) None))
    with ((filled ++ [Payload r]) ++ replicate (length rs) None).
  2:{ rewrite Nat.add_0_r insert_app_r_alt // Nat.sub_diag /=. by rewrite -app_assoc. }
  rewrite (imap_ext _ (λ i r0, ((length (filled ++ [Payload r]) + i)%nat, r0))).
  - rewrite IH. by rewrite -app_assoc.
  - intros i x _. simpl. rewrite length_app /=. f_equal. lia.
Qed.

Lemma payloads_loop_map rs : payloads_loop rs = map Payload rs.
Proof. apply (payloads_loop_from [] rs). Qed.

Lemma join_commas_cons e rest : join_commas (e :: rest) = e ++ comma_each rest.
Proof.
  revert e. induction rest as [|e' rest IH]; intros e.
  - by rewrite /comma_each /= app_nil_r.
  - change (join_commas (e :: e' :: rest)) with (e ++ [byte_comma] ++ join_commas (e' :: rest)).
    by rewrite IH.
Qed.

Lemma encode_elems_render X first ps :
  encode_elems X first ps =
    match render_all X ps with
    | inl e => inl e
    | inr encs => inr (if first then join_commas encs else comma_each encs)
    end.
Proof.
  revert first. induction ps as [|p ps IH]; intros first.
  - by destruct first.
  - simpl. destruct (json_encodeRaw X p) as [e|enc]; [done|].
    rewrite (IH false). destruct (render_all X ps) as [e|encs]; [done|].
    destruct first; [by rewrite join_commas_cons|done].
Qed.

Lemma json_Marshal_spec X ps :
  json_Marshal X ps =
    match render_all X ps with
    | inl e => inl e
    | inr encs => inr (json_array_spec encs)
    end.
Proof.
  rewrite /json_Marshal encode_elems_render.
  by destruct (render_all X ps).
Qed.

(** [render_all] succeeds exactly when every element renders, and then the
    renderings are in the order of the elements. *)
Lemma render_all_inr X ps encs :
  render_all X ps = inr encs ↔ Forall2 (λ p enc, json_encodeRaw X p = inr enc) ps encs.
Proof.
  revert encs. induction ps as [|p ps IH]; intros encs; simpl.
  - split; [by intros [= <-]; constructor|by inversion 1].
  - destruct (json_encodeRaw X p) as [e|enc] eqn:Hp.
    + split; [done|]. inversion 1; congruence.
    + destruct (render_all X ps) as [e|encs'] eqn:Hps.
      * split; [done|]. inversion 1 as [|? ? ? encs0 ? Hrest]; subst.
        apply IH in Hrest. congruence.
      * split.
        -- intros [= <-]. constructor; [done|]. by apply IH.
        -- inversion 1 as [|? enc0 ? encs0 Henc Hrest]; subst.
           apply IH in Hrest. congruence.
Qed.

Lemma render_all_inl X ps e :
  render_all X ps = inl e → ∃ p, p ∈ ps ∧ json_encodeRaw X p = inl e.
Proof.
  induction ps as [|p ps IH]; simpl; [done|].
  destruct (json_encodeRaw X p) as [e'|enc] eqn:Hp.
  - intros [= ->]. exists p. split; [left|done].
  - destruct (render_all X ps) as [e'|encs]; [|done].
    intros [= ->]. destruct IH as (p' & Hin & Hp'); [done|].
    exists p'. split; [by right|done].
Qed.



(** ** Session creation *)

Lemma CreateSession_accepted X w mgr req cfg :
  json_Unmarshal X (ConfigJson req) = inr cfg →
  Endpoint cfg ≠ "" →
  CreateSession X w mgr req
  = ((session_newID X w).1,
     <[(session_newID X w).2 := created_session X (session_newID X w).2 req cfg]> mgr,
     inr (session_newID X w).2).
Proof.
  intros Hcfg Hend. rewrite /CreateSession Hcfg decide_False // /Manager_Create.
  destruct (session_newID X w) as [w' id]. simpl.
  rewrite /Session_SetData /created_session.
  by rewrite !alter_insert_eq.
Qed.

Lemma CreateSession_rejected_parse X w mgr req e :
  json_Unmarshal X (ConfigJson req) = inl e →
  CreateSession X w mgr req = (w, mgr, inl ("invalid config: " +:+ e)).
Proof. intros He. by rewrite /CreateSession He. Qed.

Lemma CreateSession_rejected_endpoint X w mgr req cfg :
  json_Unmarshal X (ConfigJson req) = inr cfg →
  Endpoint cfg = "" →
  CreateSession X w mgr req = (w, mgr, inl "endpoint is required").
Proof. intros Hcfg Hend. by rewrite /CreateSession Hcfg decide_True. Qed.

(** C3. A request whose configuration bytes do not decode, or decode to a
    configuration with an empty endpoint (an absent field decodes to the
    empty string), is answered with a configuration error and the registry
    is left as it was; a request that decodes with a non-empty endpoint
    creates a session, stored under the identifier that is returned. *)
Theorem CreateSession_validates_config (X : Externals) (w : World X)
    (mgr : gmap string Session) (req : SessionCreateRequest) :
  ((∃ e, json_Unmarshal X (ConfigJson req) = inl e)
   ∨ (∃ cfg, json_Unmarshal X (ConfigJson req) = inr cfg ∧ Endpoint cfg = "") →
   ∃ msg, is_ConfigError msg ∧ CreateSession X w mgr req = (w, mgr, inl msg))
  ∧ (∀ cfg, json_Unmarshal X (ConfigJson req) = inr cfg → Endpoint cfg ≠ "" →
     ∃ w' mgr' id sess,
       CreateSession X w mgr req = (w', mgr', inr id)
       ∧ mgr' !! id = Some sess
       ∧ ID sess = id ∧ STenantID sess = TenantId req
       ∧ Session_GetData sess "config" = Some (VConfig cfg)
       ∧ (∀ id', id' ≠ id → mgr' !! id' = mgr !! id')).
Proof.
  split.
  - intros [[e He]|(cfg & Hcfg & Hend)].
    + exists ("invalid config: " +:+ e). split; [right; by exists e|].
      by apply CreateSession_rejected_parse.
    + exists "endpoint is required". split; [by left|].
      by apply (CreateSession_rejected_endpoint _ _ _ _ cfg).
  - intros cfg Hcfg Hend.
    eexists _, _, _, _. split; [by apply CreateSession_accepted|].
    split; [apply lookup_insert_eq|]. split_and!; try done.
    intros id' Hne. by rewrite lookup_insert_ne.
Qed.

(** C7. For a request with a non-empty endpoint the call succeeds whatever
    the timeout field holds, and the client stored in the session has the
    30 second default when the field is empty (or absent) or does not parse
    as a duration, and the parsed duration when it parses. *)
Theorem CreateSession_timeout_lenient (X : Externals) (w : World X)
    (mgr : gmap string Session) (req : SessionCreateRequest) (cfg : Config) :
  json_Unmarshal X (ConfigJson req) = inr cfg →
  Endpoint cfg ≠ "" →
  ∃ w' mgr' id sess client,
    CreateSession X w mgr req = (w', mgr', inr id)
    ∧ mgr' !! id = Some sess
    ∧ Session_GetData sess "http_client" = Some (VClient client)
    ∧ (Timeout cfg = "" ∨ (∃ e, time_ParseDuration X (Timeout cfg) = inl e) →
       ClientTimeout client = 30 * time_Second)
    ∧ (∀ d, Timeout cfg ≠ "" → time_ParseDuration X (Timeout cfg) = inr d →
       ClientTimeout client = d).
Proof.
  intros Hcfg Hend.
  eexists _, _, _, _, (mkClient (resolve_timeout X cfg)).
  split; [by apply CreateSession_accepted|].
  split; [apply lookup_insert_eq|]. split; [done|]. simpl. rewrite /resolve_timeout. split.
  - intros [Hempty|[e He]].
    + case_decide; [congruence|reflexivity].
    + case_decide; [by rewrite He|done].
  - intros d Hne Hd. by rewrite decide_True // Hd.
Qed.

(** ** Session teardown *)

Lemma CloseSession_returns_nil mgr id : (CloseSession mgr id).2 = inr ().
Proof. rewrite /CloseSession. by destruct (Manager_Close mgr id). Qed.

Lemma CloseSession_others mgr id id' :
  id' ≠ id → (CloseSession mgr id).1 !! id' = mgr !! id'.
Proof.
  intros Hne. rewrite /CloseSession /Manager_Close.
  destruct (mgr !! id); simpl; [by rewrite lookup_delete_ne|done].
Qed.

Lemma CloseSession_removes mgr id : (CloseSession mgr id).1 !! id = None.
Proof.
  rewrite /CloseSession /Manager_Close.
  destruct (mgr !! id) eqn:Hid; simpl; [apply lookup_delete_eq|done].
Qed.

(** C4, as amended. Closing an identifier that is unknown or already closed
    is answered with the empty response and a nil error (the manager's
    error is only logged), and the registry, hence every session in it, is
    left exactly as it was. The handler is a total function: no input makes
    it panic. *)
Theorem CloseSession_unknown_is_silent (mgr : gmap string Session) (id : string) :
  (mgr !! id = None → CloseSession mgr id = (mgr, inr ()))
  ∧ (CloseSession (CloseSession mgr id).1 id = ((CloseSession mgr id).1, inr ()))
  ∧ (∀ id', id' ≠ id → (CloseSession mgr id).1 !! id' = mgr !! id').
Proof.
  assert (Hunknown : ∀ m, m !! id = None → CloseSession m id = (m, inr ())).
  { intros m Hm. by rewrite /CloseSession /Manager_Close Hm. }
  split_and!; [apply Hunknown| |intros id'; apply CloseSession_others].
  apply Hunknown, CloseSession_removes.
Qed.

(** ** Result classification *)

Lemma contains_intro pre s post : contains (pre +:+ s +:+ post) s.
Proof. by exists pre, post. Qed.

Lemma string_app_assoc (a b c : string) : (a +:+ b) +:+ c = a +:+ b +:+ c.
Proof.
  induction a as [|ch a IH]; [done|].
  rewrite /String.app /=. fold (String.app a b). fold (String.app (a +:+ b) c).
  fold (String.app b c). fold (String.app a (b +:+ c)). by rewrite IH.
Qed.

Lemma string_app_nil_r (a : string) : a +:+ "" = a.
Proof.
  induction a as [|ch a IH]; [done|].
  rewrite /String.app /=. fold (String.app a ""). by rewrite IH.
Qed.

(** A completed exchange is classified by [classify]. *)
Lemma sendBatch_completed X w client cfg b body w' resp :
  format_batch X cfg b = inr body →
  http_NewRequest_check X (request_method cfg) (Endpoint cfg) = None →
  client_Do X w client
    (mkRequest (request_method cfg) (Endpoint cfg) body (request_headers X cfg))
  = (w', inr resp) →
  sendBatch X w client cfg b
  = (w', mkDelivery (Some (mkRequest (request_method cfg) (Endpoint cfg) body
                                     (request_headers X cfg)))
                    (classify resp)).
Proof.
  intros Hf Hn Hd. rewrite (sendBatch_formatted _ _ _ _ _ body) // Hn /=.
  by rewrite Hd.
Qed.

(** C6, as amended. A completed exchange is a failure exactly when the
    status is at least 400; the reason is then "HTTP <status>: <bytes>",
    where the bytes are whatever the read of the response body returned
    (the read's own error is dropped, so these are the bytes read before a
    failure, not necessarily none); a status below 400 is a success. *)
Theorem status_classification (X : Externals) (w w' : World X) (client : Client)
    (cfg : Config) (b : Batch) (body : list byte) (resp : Response) :
  format_batch X cfg b = inr body →
  http_NewRequest_check X (request_method cfg) (Endpoint cfg) = None →
  client_Do X w client
    (mkRequest (request_method cfg) (Endpoint cfg) body (request_headers X cfg))
  = (w', inr resp) →
  result (sendBatch X w client cfg b).2 = classify resp
  ∧ (400 ≤ StatusCode resp ↔ ∃ reason, classify resp = Some reason)
  ∧ (StatusCode resp < 400 ↔ classify resp = None)
  ∧ (∀ reason, classify resp = Some reason →
       reason = "HTTP " +:+ fmt_d (StatusCode resp) +:+ ": "
                +:+ string_of_bytes (BodyRead resp).1
       ∧ contains reason (fmt_d (StatusCode resp))
       ∧ contains reason (string_of_bytes (BodyRead resp).1)).
Proof.
  intros Hf Hn Hd. split.
  { by rewrite (sendBatch_completed _ _ _ _ _ body w' resp). }
  rewrite /classify. case_decide as Hst; simpl.
  - split_and!.
    + split; [eauto|done].
    + split; [lia|done].
    + intros reason [= <-]. split_and!; [done|apply contains_intro|].
      exists ("HTTP " +:+ fmt_d (StatusCode resp) +:+ ": "), "".
      by rewrite string_app_nil_r !string_app_assoc.
  - split_and!.
    + split; [lia|by intros [? ?]].
    + split; [done|lia].
    + done.
Qed.

(** ** The request method *)

(** C9, as amended. The method of every outbound request is the
    configuration's method field as written when that field is not empty,
    and POST when it is empty; nothing restricts it to POST, PUT or
    PATCH. *)
Theorem outbound_method_is_configured (X : Externals) (w : World X) (client : Client)
    (cfg : Config) (b : Batch) (req : Request) :
  sent (sendBatch X w client cfg b).2 = Some req →
  ReqMethod req = request_method cfg
  ∧ (Method cfg = "" → ReqMethod req = "POST")
  ∧ (Method cfg ≠ "" → ReqMethod req = Method cfg).
Proof.
  intros Hsent. apply sendBatch_sent in Hsent as (body & _ & ->). simpl.
  rewrite /request_method. split_and!; [done| |]; intros Hm; by case_decide.
Qed.

(** ** The empty batch *)



(** ** Request headers *)

Lemma apply_headers_cons h kv kvs :
  apply_headers h (kv :: kvs) = apply_headers (Header_Set h kv.1 kv.2) kvs.
Proof. done. Qed.

(** A canonical key no configured key maps to keeps its value. *)
Lemma apply_headers_untouched (K : string) kvs h :
  Forall (λ kv : string * string, CanonicalMIMEHeaderKey kv.1 ≠ K) kvs →
  apply_headers h kvs !! K = h !! K.
Proof.
  intros Hall. revert h. induction Hall as [|kv kvs Hkv _ IH]; intros h; [done|].
  rewrite apply_headers_cons IH /Header_Set. by rewrite lookup_insert_ne.
Qed.

(** A canonical key some configured key maps to carries the value of one of
    those keys: the one visited last. *)
Lemma apply_headers_touched (K : string) kvs h :
  Exists (λ kv : string * string, CanonicalMIMEHeaderKey kv.1 = K) kvs →
  ∃ kv, kv ∈ kvs ∧ CanonicalMIMEHeaderKey kv.1 = K
        ∧ apply_headers h kvs !! K = Some [kv.2].
Proof.
  revert h. induction kvs as [|kv kvs IH]; intros h Hex; [by inversion Hex|].
  rewrite apply_headers_cons.
  destruct (decide (Exists (λ kv : string * string, CanonicalMIMEHeaderKey kv.1 = K) kvs))
    as [Hlater|Hnot].
  - destruct (IH (Header_Set h kv.1 kv.2) Hlater) as (kv' & Hin & Hk & Hl).
    exists kv'. split; [by right|done].
  - inversion Hex as [? ? Hhead|]; [|done]. subst.
    exists kv. split; [left|]. split; [done|].
    rewrite apply_headers_untouched.
    2:{ apply Forall_forall. intros kv' Hin Hk. apply Hnot, Exists_exists. eauto. }
    by rewrite /Header_Set lookup_insert_eq.
Qed.

Lemma range_order_elem X (m : gmap string string) k v :
  range_ok X → (k, v) ∈ range_order X m ↔ m !! k = Some v.
Proof. intros Hok. rewrite (Hok m). apply elem_of_map_to_list. Qed.

Lemma canonical_content_type : CanonicalMIMEHeaderKey "Content-Type" = "Content-Type".
Proof. by vm_compute. Qed.

(** C8, as amended. [Header.Set] files every value under the canonical form
    of its key. The request carries Content-Type: application/json unless
    some configured key has the canonical form Content-Type; under the
    canonical form of every configured key it carries the value of one of
    the configured keys with that canonical form, which is the key's own
    value whenever the keys sharing its canonical form agree on the value
    (in particular when no other key shares it). The header of every
    request sent is this one. *)
Theorem request_headers_canonical (X : Externals) (cfg : Config) :
  range_ok X →
  ((∀ k v, Headers cfg !! k = Some v → CanonicalMIMEHeaderKey k ≠ "Content-Type") →
   request_headers X cfg !! "Content-Type" = Some ["application/json"])
  ∧ (∀ k v, Headers cfg !! k = Some v →
       ∃ k' v', Headers cfg !! k' = Some v'
                ∧ CanonicalMIMEHeaderKey k' = CanonicalMIMEHeaderKey k
                ∧ request_headers X cfg !! CanonicalMIMEHeaderKey k = Some [v'])
  ∧ (∀ k v, Headers cfg !! k = Some v →
       (∀ k' v', Headers cfg !! k' = Some v' →
                 CanonicalMIMEHeaderKey k' = CanonicalMIMEHeaderKey k → v' = v) →
       Header_Get (request_headers X cfg) k = v)
  ∧ (∀ w client b req, sent (sendBatch X w client cfg b).2 = Some req →
       ReqHeader req = request_headers X cfg).
Proof.
  intros Hok.
  assert (Hsome : ∀ k v, Headers cfg !! k = Some v →
            ∃ k' v', Headers cfg !! k' = Some v'
                     ∧ CanonicalMIMEHeaderKey k' = CanonicalMIMEHeaderKey k
                     ∧ request_headers X cfg !! CanonicalMIMEHeaderKey k = Some [v']).
  { intros k v Hkv. rewrite /request_headers.
    edestruct (apply_headers_touched (CanonicalMIMEHeaderKey k)
                 (range_order X (Headers cfg))) as ([k' v'] & Hin & Hk & Hl).
    - apply Exists_exists. exists (k, v). split; [|done].
      by apply range_order_elem.
    - exists k', v'. split; [by apply (range_order_elem X)|]. split; [done|]. apply Hl. }
  split_and!.
  - intros Hnone. rewrite /request_headers apply_headers_untouched.
    + by rewrite /Header_Set canonical_content_type lookup_insert_eq.
    + apply Forall_forall. intros [k v] Hin. apply (range_order_elem X) in Hin; [|done].
      by apply (Hnone k v).
  - done.
  - intros k v Hkv Hagree. destruct (Hsome k v Hkv) as (k' & v' & Hkv' & Hk & Hl).
    rewrite /Header_Get Hl. by apply (Hagree k' v').
  - intros w client b req Hsent. by apply sendBatch_sent in Hsent as (body & _ & ->).
Qed.

(** ** No panic, and one acknowledgment per message *)

Lemma registry_ok_CreateSession X w mgr req :
  registry_ok mgr → registry_ok (CreateSession X w mgr req).1.2.
Proof.
  intros Hok. rewrite /CreateSession.
  destruct (json_Unmarshal X (ConfigJson req)) as [e|cfg] eqn:Hcfg; [done|].
  case_decide as Hend; [done|].
  pose proof (CreateSession_accepted X w mgr req cfg Hcfg Hend) as Hc.
  rewrite /CreateSession Hcfg decide_False // in Hc. rewrite Hc /=.
  apply map_Forall_insert_2; [|done].
  by exists (mkClient (resolve_timeout X cfg)), cfg.
Qed.

Lemma registry_ok_CloseSession mgr id :
  registry_ok mgr → registry_ok (CloseSession mgr id).1.
Proof.
  intros Hok. rewrite /CloseSession /Manager_Close.
  destruct (mgr !! id); simpl; [by apply map_Forall_delete|done].
Qed.

Lemma reachable_registry_ok X mgr : reachable X mgr → registry_ok mgr.
Proof.
  induction 1 as [|w mgr req _ IH|mgr id _ IH].
  - apply map_Forall_empty.
  - by apply registry_ok_CreateSession.
  - by apply registry_ok_CloseSession.
Qed.

Lemma resolve_session_ok mgr st req :
  registry_ok mgr → state_ok st →
  match resolve_session mgr st req with
  | Bound st' => is_Some (currentSession st') ∧ is_Some (cur_client st')
  | ResolveError e => currentSession st = None ∧ mgr !! WSessionId req = None
  | ResolvePanic => False
  end.
Proof.
  intros Hreg Hst. rewrite /resolve_session.
  destruct (currentSession st) as [sess|] eqn:Hcur.
  - rewrite Hcur. split; [done|]. apply Hst. by rewrite Hcur.
  - rewrite /Manager_Get. destruct (mgr !! WSessionId req) as [sess|] eqn:Hget; [|done].
    destruct (Hreg _ _ Hget) as (client & cfg & -> & ->). simpl. eauto.
Qed.

(** The handler's loop never panics on a registry whose sessions are
    provisioned. *)
Lemma Write_loop_no_panic X mgr msgs fin w st sofar :
  registry_ok mgr → state_ok st →
  ended (Write_loop X mgr msgs fin w st sofar).2 ≠ Panic.
Proof.
  intros Hreg. revert w st sofar.
  induction msgs as [|req rest IH]; intros w st sofar Hst; [done|].
  simpl. pose proof (resolve_session_ok mgr st req Hreg Hst) as Hres.
  destruct (resolve_session mgr st req) as [st'|e|]; [|done..].
  destruct Hres as [Hcur [client Hcl]].
  assert (Hst' : state_ok st') by (intros _; by exists client).
  destruct (batch_UnpackBatch X (PackedBatch req)) as [e|b].
  - rewrite /send_then. destruct (stream_Send _ _ _) as [w' [sendErr|]]; [done|].
    by apply IH.
  - rewrite Hcl. destruct (sendBatch X w client (cur_cfg st') b) as [w1 d].
    destruct (result d) as [err|]; rewrite /send_then;
      destruct (stream_Send _ _ _) as [w' [sendErr|]]; try done; by apply IH.
Qed.

(** X21. On a registry the handlers built, [Write] returns: neither type
    assertion on the session's data fails and the client is never nil. *)
Lemma Write_never_panics X mgr s w :
  reachable X mgr → ended (Write X mgr s w).2 ≠ Panic.
Proof.
  intros Hreach. apply Write_loop_no_panic; [by apply (reachable_registry_ok X)|].
  by intros [? ?].
Qed.

(** The acknowledgments already sent are kept, in order, in front of the
    later ones. *)
Lemma Write_loop_sofar X mgr msgs fin w st sofar :
  Write_loop X mgr msgs fin w st sofar
  = ((Write_loop X mgr msgs fin w st []).1,
     mkWriteRun (sofar ++ acks (Write_loop X mgr msgs fin w st []).2)
                (ended (Write_loop X mgr msgs fin w st []).2)).
Proof.
  revert w st sofar. induction msgs as [|req rest IH]; intros w st sofar.
  { by rewrite /= app_nil_r. }
  simpl. destruct (resolve_session mgr st req) as [st'|e|]; [|by rewrite /= app_nil_r..].
  destruct (batch_UnpackBatch X (PackedBatch req)) as [e|b].
  - rewrite /send_then. destruct (stream_Send _ _ _) as [w' [sendErr|]].
    + by rewrite /= app_nil_r.
    + rewrite IH (IH _ _ ([] ++ _)) /=. by rewrite -app_assoc.
  - destruct (cur_client st') as [client|]; [|by rewrite /= app_nil_r].
    destruct (sendBatch X w client (cur_cfg st') b) as [w1 d].
    destruct (result d) as [err|]; rewrite /send_then;
      destruct (stream_Send _ _ _) as [w' [sendErr|]];
      try (by rewrite /= app_nil_r);
      rewrite IH (IH _ _ ([] ++ _)) /=; by rewrite -app_assoc.
Qed.

(** At most one acknowledgment per received message. *)
Lemma Write_loop_acks_bound X mgr msgs fin w st sofar :
  (length (acks (Write_loop X mgr msgs fin w st sofar).2)
   ≤ length sofar + length msgs)%nat.
Proof.
  revert w st sofar. induction msgs as [|req rest IH]; intros w st sofar.
  { simpl. lia. }
  assert (Hstep : ∀ w' st' ack,
            (length (acks (Write_loop X mgr rest fin w' st' (sofar ++ [ack])).2)
             ≤ length sofar + S (length rest))%nat).
  { intros w' st' ack. etrans; [apply IH|]. rewrite length_app /=. lia. }
  simpl. destruct (resolve_session mgr st req) as [st'|e|]; [|simpl; lia..].
  destruct (batch_UnpackBatch X (PackedBatch req)) as [e|b].
  - rewrite /send_then. destruct (stream_Send _ _ _) as [w' [sendErr|]]; [simpl; lia|].
    apply Hstep.
  - destruct (cur_client st') as [client|]; [|simpl; lia].
    destruct (sendBatch X w client (cur_cfg st') b) as [w1 d].
    destruct (result d) as [err|]; rewrite /send_then;
      destruct (stream_Send _ _ _) as [w' [sendErr|]];
      try (simpl; lia); apply Hstep.
Qed.

(** ** Decode errors and unknown sessions *)

Lemma send_then_accepted X w w' sofar ack k :
  stream_Send X w ack = (w', None) →
  send_then X w sofar ack k = k w' (sofar ++ [ack]).
Proof. intros Hs. by rewrite /send_then Hs. Qed.

(** Once bound, the state is not resolved again. *)
Lemma resolve_session_bound mgr st req sess :
  currentSession st = Some sess → resolve_session mgr st req = Bound st.
Proof. intros Hs. by rewrite /resolve_session Hs. Qed.

Lemma resolve_session_stays_bound mgr st req st' :
  resolve_session mgr st req = Bound st' → is_Some (currentSession st').
Proof.
  rewrite /resolve_session. destruct (currentSession st) as [sess|] eqn:Hcur.
  - intros [= <-]. by rewrite Hcur.
  - destruct (Manager_Get mgr (WSessionId req)) as [e|sess]; [done|].
    destruct (Session_GetData sess "http_client") as [[c|?]|]; try done.
    destruct (Session_GetData sess "config") as [[?|cfg]|]; try done.
    by intros [= <-].
Qed.


(** * The theorems at concrete inputs *)

Lemma demo_range_ok : range_ok Demo.X.
Proof. by intros m. Qed.

(** The scenario of the spec: the two records as two lines. *)
Lemma ndjson_body_witness :
  BatchFormat Demo.scenario_cfg = "ndjson"
  ∧ format_batch Demo.X Demo.scenario_cfg Demo.batch_ab
    = inr (Demo.bytes ("{" +:+ Demo.jstr "a" +:+ ":1}") ++ [byte_newline]
           ++ Demo.bytes ("{" +:+ Demo.jstr "b" +:+ ":2}") ++ [byte_newline]).
Proof.
  split; [reflexivity|].
  exact (proj1 (ndjson_body_is_payload_lines Demo.X Demo.w0 Demo.client30
                  Demo.scenario_cfg Demo.batch_ab eq_refl)).
Defined.


(** An empty configuration object is rejected; the scenario's is accepted. *)
Lemma CreateSession_validates_witness :
  (∃ msg, is_ConfigError msg
          ∧ CreateSession Demo.X Demo.w0 ∅ (Demo.create_req "{}") = (Demo.w0, ∅, inl msg))
  ∧ (∃ msg, is_ConfigError msg
            ∧ CreateSession Demo.X Demo.w0 Demo.mgr1 (Demo.create_req "{oops")
              = (Demo.w0, Demo.mgr1, inl msg))
  ∧ (∃ w' mgr' sess,
       CreateSession Demo.X Demo.w0 ∅ (Demo.create_req Demo.scenario_json)
       = (w', mgr', inr "sess-0")
       ∧ mgr' !! "sess-0" = Some sess).
Proof.
  split_and!.
  - apply (proj1 (CreateSession_validates_config Demo.X Demo.w0 ∅ (Demo.create_req "{}"))).
    right. exists zero_Config. split; [vm_compute; reflexivity|reflexivity].
  - apply (proj1 (CreateSession_validates_config Demo.X Demo.w0 Demo.mgr1
                    (Demo.create_req "{oops"))).
    left. exists "invalid character". vm_compute; reflexivity.
  - destruct (proj2 (CreateSession_validates_config Demo.X Demo.w0 ∅
                       (Demo.create_req Demo.scenario_json)) Demo.scenario_cfg)
      as (w' & mgr' & id & sess & Hc & Hl & _).
    + vm_compute; reflexivity.
    + discriminate.
    + assert (Hid : id = "sess-0").
      { rewrite (CreateSession_accepted _ _ _ _ Demo.scenario_cfg) in Hc;
          [|vm_compute; reflexivity|discriminate].
        by injection Hc as _ _ <-. }
      subst id. by exists w', mgr', sess.
Defined.

(** A timeout that is not a duration: the session is created with 30s. *)
Lemma CreateSession_timeout_witness :
  json_Unmarshal Demo.X (ConfigJson (Demo.create_req Demo.lenient_json)) = inr Demo.lenient_cfg
  ∧ Endpoint Demo.lenient_cfg ≠ ""
  ∧ ∃ w' mgr' id sess,
      CreateSession Demo.X Demo.w0 ∅ (Demo.create_req Demo.lenient_json) = (w', mgr', inr id)
      ∧ mgr' !! id = Some sess
      ∧ Session_GetData sess "http_client" = Some (VClient (mkClient 30000000000))
      ∧ ∃ w'' mgr'' id' sess',
          CreateSession Demo.X Demo.w0 ∅ (Demo.create_req Demo.timed_json)
          = (w'', mgr'', inr id')
          ∧ mgr'' !! id' = Some sess'
          ∧ Session_GetData sess' "http_client" = Some (VClient (mkClient 5000000000)).
Proof.
  assert (H1 : json_Unmarshal Demo.X (ConfigJson (Demo.create_req Demo.lenient_json))
               = inr Demo.lenient_cfg) by (vm_compute; reflexivity).
  assert (H2 : Endpoint Demo.lenient_cfg ≠ "") by discriminate.
  split; [exact H1|]. split; [exact H2|].
  destruct (CreateSession_timeout_lenient Demo.X Demo.w0 ∅ _ _ H1 H2)
    as (w' & mgr' & id & sess & [t] & Hc & Hl & Hd & Hdef & _).
  exists w', mgr', id, sess. split; [exact Hc|]. split; [exact Hl|].
  split.
  { rewrite Hd. do 3 f_equal. simpl in Hdef. apply Hdef.
    right. eexists. vm_compute. reflexivity. }
  destruct (CreateSession_timeout_lenient Demo.X Demo.w0 ∅
              (Demo.create_req Demo.timed_json) Demo.timed_cfg)
    as (w'' & mgr'' & id' & sess' & [t'] & Hc' & Hl' & Hd' & _ & Hparsed);
    [vm_compute; reflexivity|discriminate|].
  exists w'', mgr'', id', sess'. split; [exact Hc'|]. split; [exact Hl'|].
  rewrite Hd'. do 3 f_equal. simpl in Hparsed. apply Hparsed; [discriminate|].
  vm_compute. reflexivity.
Defined.


(** A 500 answer with the body "boom". *)
Lemma status_classification_witness :
  client_Do Demo.X (Demo.mkWorld [inr Demo.err_500] 0) Demo.client30
    (mkRequest "POST" "http://x/ingest"
       (json_array_spec [slice_bytes (Payload Demo.rec_a); slice_bytes (Payload Demo.rec_b)])
       (request_headers Demo.X Demo.plain_cfg))
  = (Demo.mkWorld [] 0, inr Demo.err_500)
  ∧ result (sendBatch Demo.X (Demo.mkWorld [inr Demo.err_500] 0) Demo.client30
              Demo.plain_cfg Demo.batch_ab).2
    = Some "HTTP 500: boom".
Proof.
  split; [reflexivity|].
  exact (proj1 (status_classification Demo.X (Demo.mkWorld [inr Demo.err_500] 0)
                  (Demo.mkWorld [] 0) Demo.client30 Demo.plain_cfg Demo.batch_ab
                  (json_array_spec [slice_bytes (Payload Demo.rec_a);
                                    slice_bytes (Payload Demo.rec_b)])
                  Demo.err_500 eq_refl eq_refl eq_refl)).
Defined.

(** The scenario's header map: the default content type and X-Tenant. *)
Lemma request_headers_witness :
  range_ok Demo.X
  ∧ request_headers Demo.X Demo.scenario_cfg !! "Content-Type" = Some ["application/json"]
  ∧ Header_Get (request_headers Demo.X Demo.scenario_cfg) "X-Tenant" = "t1".
Proof.
  split; [exact demo_range_ok|].
  destruct (request_headers_canonical Demo.X Demo.scenario_cfg demo_range_ok)
    as (Hct & _ & Hget & _).
  split.
  - apply Hct. intros k v Hk. change (Headers Demo.scenario_cfg) with
      ({["X-Tenant" := "t1"]} : gmap string string) in Hk.
    apply lookup_singleton_Some in Hk as [<- <-]. by vm_compute.
  - apply Hget; [reflexivity|]. intros k' v' Hk _.
    change (Headers Demo.scenario_cfg) with ({["X-Tenant" := "t1"]} : gmap string string) in Hk.
    by apply lookup_singleton_Some in Hk as [<- <-].
Defined.

(** The scenario sends a PUT; a configuration without a method sends a POST. *)
Lemma outbound_method_witness :
  (∃ req, sent (sendBatch Demo.X Demo.w0 Demo.client30 Demo.scenario_cfg Demo.batch_ab).2
          = Some req ∧ ReqMethod req = "PUT")
  ∧ (∃ req, sent (sendBatch Demo.X Demo.w0 Demo.client30 Demo.plain_cfg Demo.batch_ab).2
            = Some req ∧ ReqMethod req = "POST").
Proof.
  split.
  - destruct (sent (sendBatch Demo.X Demo.w0 Demo.client30 Demo.scenario_cfg Demo.batch_ab).2)
      as [req|] eqn:Hs; [|vm_compute in Hs; discriminate].
    exists req. split; [reflexivity|].
    apply (outbound_method_is_configured _ _ _ _ _ _ Hs). discriminate.
  - destruct (sent (sendBatch Demo.X Demo.w0 Demo.client30 Demo.plain_cfg Demo.batch_ab).2)
      as [req|] eqn:Hs; [|vm_compute in Hs; discriminate].
    exists req. split; [reflexivity|].
    apply (outbound_method_is_configured _ _ _ _ _ _ Hs). reflexivity.
Defined.


(** An identifier the registry does not hold. *)
Lemma CloseSession_unknown_witness :
  Demo.mgr1 !! "sess-9" = None
  ∧ CloseSession Demo.mgr1 "sess-9" = (Demo.mgr1, inr ()).
Proof.
  split; [reflexivity|].
  exact (proj1 (CloseSession_unknown_is_silent Demo.mgr1 "sess-9") eq_refl).
Defined.

(** * Where the code departs from the statements *)

(** C4 as stated fails: closing an identifier the registry does not hold,
    and closing one a second time, both return no error. *)
Lemma CloseSession_unknown_counterexample :
  Demo.mgr1 !! "sess-9" = None
  ∧ CloseSession Demo.mgr1 "sess-9" = (Demo.mgr1, inr ())
  ∧ CloseSession (CloseSession Demo.mgr1 "sess-0").1 "sess-0" = (∅, inr ())
  ∧ ¬ (∃ e, (CloseSession Demo.mgr1 "sess-9").2 = inl e).
Proof.
  split_and!; [reflexivity|reflexivity|by vm_compute|].
  intros [e He]. by rewrite CloseSession_returns_nil in He.
Qed.

(** C6 as stated fails: a body read that breaks off after "par" reports an
    error, and the reason carries "par", not an empty body. *)
Lemma partial_body_read_counterexample :
  (BodyRead Demo.cut_500).2 = Some "unexpected EOF"
  ∧ result (sendBatch Demo.X (Demo.mkWorld [inr Demo.cut_500] 0) Demo.client30
              Demo.plain_cfg Demo.batch_ab).2
    = Some "HTTP 500: par"
  ∧ "HTTP 500: par" ≠ "HTTP 500: ".
Proof. split_and!; [reflexivity|by vm_compute|discriminate]. Qed.

(** C8 as stated fails: two configured keys that differ in case only cannot
    both have their value carried, whatever the visiting order; and a
    lower-case content-type key replaces the default although the map does
    not bind the key Content-Type. *)
Lemma header_key_case_counterexample :
  (¬ ∃ X : Externals, ∀ k v, Headers Demo.clash_cfg !! k = Some v →
                              Header_Get (request_headers X Demo.clash_cfg) k = v)
  ∧ Headers Demo.lower_ct_cfg !! "Content-Type" = None
  ∧ Header_Get (request_headers Demo.X Demo.lower_ct_cfg) "Content-Type" = "text/plain".
Proof.
  split_and!; [|by vm_compute..].
  intros [X Hall].
  pose proof (Hall "X-A" "1" eq_refl) as H1.
  pose proof (Hall "x-a" "2" eq_refl) as H2.
  rewrite /Header_Get in H1, H2.
  change (CanonicalMIMEHeaderKey "x-a") with "X-A" in H2.
  change (CanonicalMIMEHeaderKey "X-A") with "X-A" in H1.
  congruence.
Qed.

(** C9 as stated fails: a configured DELETE is sent as DELETE. *)
Lemma outbound_method_counterexample :
  ∃ req, sent (sendBatch Demo.X Demo.w0 Demo.client30 Demo.delete_cfg Demo.batch_ab).2
         = Some req
         ∧ ReqMethod req = "DELETE"
         ∧ ReqMethod req ∉ ["POST"; "PUT"; "PATCH"].
Proof.
  destruct (sent (sendBatch Demo.X Demo.w0 Demo.client30 Demo.delete_cfg Demo.batch_ab).2)
    as [req|] eqn:Hs; [|vm_compute in Hs; discriminate].
  exists req. split; [reflexivity|].
  apply sendBatch_sent in Hs as (body & _ & ->). simpl.
  split; [reflexivity|]. rewrite !elem_of_cons elem_of_nil.
  intros [H|[H|[H|[]]]]; discriminate H.
Qed.

(** * Further properties of the code *)

(** ** [sendBatch]: when it sends, when it succeeds, how it words errors *)

(** X1. [sendBatch] hands nothing to the transport exactly when the batch
    cannot be formatted or the request cannot be constructed; it then
    returns an error and leaves the world as it was. *)
Theorem sendBatch_local_failure (X : Externals) (w : World X) (client : Client)
    (cfg : Config) (b : Batch) :
  (sent (sendBatch X w client cfg b).2 = None
   ↔ (∃ e, format_batch X cfg b = inl e)
     ∨ (∃ e, http_NewRequest_check X (request_method cfg) (Endpoint cfg) = Some e))
  ∧ (sent (sendBatch X w client cfg b).2 = None →
     (sendBatch X w client cfg b).1 = w
     ∧ is_Some (result (sendBatch X w client cfg b).2)).
Proof.
  rewrite /sendBatch. destruct (format_batch X cfg b) as [e|body].
  { simpl. split; [split; eauto|eauto]. }
  destruct (http_NewRequest_check X _ _) as [e|].
  { simpl. split; [split; eauto|eauto]. }
  destruct (client_Do X w client _) as [w' [e|resp]]; simpl.
  - split; [|done]. split; [done|]. by intros [[? ?]|[? ?]].
  - split; [|done]. split; [done|]. by intros [[? ?]|[? ?]].
Qed.

(** X2. [sendBatch] returns nil exactly when the batch was formatted, the
    request constructed, and the transport answered it with a status below
    400. *)
Theorem sendBatch_success_iff (X : Externals) (w : World X) (client : Client)
    (cfg : Config) (b : Batch) :
  result (sendBatch X w client cfg b).2 = None
  ↔ ∃ body resp,
      format_batch X cfg b = inr body
      ∧ http_NewRequest_check X (request_method cfg) (Endpoint cfg) = None
      ∧ (client_Do X w client
           (mkRequest (request_method cfg) (Endpoint cfg) body (request_headers X cfg))).2
        = inr resp
      ∧ StatusCode resp < 400.
Proof.
  rewrite /sendBatch. destruct (format_batch X cfg b) as [e|body].
  { simpl. split; [done|]. by intros (? & ? & ? & _). }
  destruct (http_NewRequest_check X _ _) as [e|].
  { simpl. split; [done|]. by intros (? & ? & _ & ? & _). }
  destruct (client_Do X w client _) as [w' [e|resp]] eqn:Hdo; simpl.
  - split; [done|]. intros (body' & resp' & [= <-] & _ & Hd & _).
    by rewrite Hdo in Hd.
  - rewrite /classify. case_decide as Hst.
    + split; [done|]. intros (body' & resp' & [= <-] & _ & Hd & Hlt).
      rewrite Hdo /= in Hd. injection Hd as <-. lia.
    + split; [|done]. intros _. exists body, resp. rewrite Hdo. split_and!; try done. lia.
Qed.

Lemma has_prefix_intro p rest : has_prefix p (p +:+ rest).
Proof. by exists rest. Qed.

Lemma has_prefix_nonempty p s : p ≠ "" → has_prefix p s → s ≠ "".
Proof.
  intros Hp [rest ->]. destruct p as [|c p]; [done|]. by rewrite /String.app /=.
Qed.

Lemma sendBatch_error_has_prefix X w client cfg b err :
  result (sendBatch X w client cfg b).2 = Some err →
  ∃ p, p ∈ sendBatch_error_prefixes ∧ has_prefix p err.
Proof.
  rewrite /sendBatch /format_batch /sendBatch_error_prefixes.
  case_decide as Hfmt.
  - destruct (http_NewRequest_check X _ _) as [e|].
    { simpl. intros [= <-]. eexists. split; [|apply has_prefix_intro]. set_solver. }
    destruct (client_Do X w client _) as [w' [e|resp]]; simpl.
    { intros [= <-]. eexists. split; [|apply has_prefix_intro]. set_solver. }
    rewrite /classify. case_decide; [|done].
    intros [= <-]. eexists. split; [|apply has_prefix_intro]. set_solver.
  - destruct (format_json_array X b) as [e|body].
    { simpl. intros [= <-]. eexists. split; [|apply has_prefix_intro]. set_solver. }
    destruct (http_NewRequest_check X _ _) as [e|].
    { simpl. intros [= <-]. eexists. split; [|apply has_prefix_intro]. set_solver. }
    destruct (client_Do X w client _) as [w' [e|resp]]; simpl.
    { intros [= <-]. eexists. split; [|apply has_prefix_intro]. set_solver. }
    rewrite /classify. case_decide; [|done].
    intros [= <-]. eexists. split; [|apply has_prefix_intro]. set_solver.
Qed.

Lemma sendBatch_error_nonempty X w client cfg b err :
  result (sendBatch X w client cfg b).2 = Some err → err ≠ "".
Proof.
  intros (p & Hin & Hpre)%sendBatch_error_has_prefix.
  apply (has_prefix_nonempty p); [|done].
  rewrite /sendBatch_error_prefixes !elem_of_cons elem_of_nil in Hin.
  destruct Hin as [->|[->|[->|[->|[]]]]]; done.
Qed.

(** X3. Every error [sendBatch] returns is worded in one of four ways: it
    starts with "failed to marshal batch: ", "failed to create request: ",
    "HTTP request failed: " or "HTTP " (then the status); so it is never the
    empty text. *)
Theorem sendBatch_error_wording (X : Externals) (w : World X) (client : Client)
    (cfg : Config) (b : Batch) (err : string) :
  result (sendBatch X w client cfg b).2 = Some err →
  (∃ p, p ∈ sendBatch_error_prefixes ∧ has_prefix p err) ∧ err ≠ "".
Proof.
  intros Hres. split.
  - by apply (sendBatch_error_has_prefix X w client cfg b).
  - by apply (sendBatch_error_nonempty X w client cfg b).
Qed.

(** ** The encodings *)

Lemma split_lines_line cur p rest :
  newline_free p →
  split_lines cur (p ++ byte_newline :: rest) = (cur ++ p) :: split_lines [] rest.
Proof.
  revert cur. induction p as [|c p IH]; intros cur Hfree.
  - by rewrite /= app_nil_r.
  - simpl. destruct (Byte.eqb c byte_newline) eqn:Hc.
    + apply Byte.byte_dec_bl in Hc as ->. exfalso. apply Hfree. left.
    + rewrite IH; [by rewrite -app_assoc|].
      intros Hin. apply Hfree. by right.
Qed.

(** X4. The ndjson body can be read back: when no payload holds a newline
    byte, splitting the body at its newlines gives the payloads again, one
    line per record and in the order of the records. *)
Theorem ndjson_round_trip (b : Batch) :
  Forall (λ r, newline_free (slice_bytes (Payload r))) (Records b) →
  split_lines [] (format_ndjson b) = map (λ r, slice_bytes (Payload r)) (Records b).
Proof.
  rewrite format_ndjson_spec. induction 1 as [|r rs Hr _ IH]; [done|].
  rewrite /ndjson_spec /= -app_assoc /=. rewrite split_lines_line //.
  by rewrite -/(ndjson_spec rs) IH.
Qed.

(** X5. The ndjson body is empty only for a batch without records: a record
    whose payload is empty or nil still contributes its newline. *)
Theorem ndjson_empty_iff (b : Batch) : format_ndjson b = [] ↔ Records b = [].
Proof.
  rewrite format_ndjson_spec. destruct (Records b) as [|r rs]; [done|].
  split; [|done]. rewrite /ndjson_spec /=.
  intros H. apply (f_equal length) in H. rewrite !length_app /= in H. lia.
Qed.

(** X6. The array encoding is all or nothing: with a format other than
    "ndjson" the batch is formatted exactly when the codec renders every
    payload; one payload it rejects makes [sendBatch] fail without sending
    anything, whatever the other records hold. *)
Theorem json_array_all_or_nothing (X : Externals) (w : World X) (client : Client)
    (cfg : Config) (b : Batch) :
  BatchFormat cfg ≠ "ndjson" →
  ((∃ body, format_batch X cfg b = inr body)
   ↔ Forall (λ r, ∃ enc, json_encodeRaw X (Payload r) = inr enc) (Records b))
  ∧ (∀ r e, r ∈ Records b → json_encodeRaw X (Payload r) = inl e →
            sent (sendBatch X w client cfg b).2 = None
            ∧ is_Some (result (sendBatch X w client cfg b).2)
            ∧ (sendBatch X w client cfg b).1 = w).
Proof.
  intros Hfmt.
  assert (Hfb : format_batch X cfg b =
                match render_all X (map Payload (Records b)) with
                | inl e => inl ("failed to marshal batch: " +:+ e)
                | inr elems => inr (json_array_spec elems)
                end).
  { rewrite /format_batch decide_False // /format_json_array json_Marshal_spec.
    rewrite payloads_loop_map. by destruct (render_all _ _). }
  assert (Hiff : (∃ body, format_batch X cfg b = inr body)
                 ↔ Forall (λ r, ∃ enc, json_encodeRaw X (Payload r) = inr enc) (Records b)).
  { rewrite Hfb. destruct (render_all X (map Payload (Records b))) as [e|elems] eqn:Hr.
    - split; [by intros [? ?]|]. intros Hall.
      apply render_all_inl in Hr as (p & Hin & Hp).
      apply list_elem_of_fmap in Hin as (r & -> & Hin).
      rewrite Forall_forall in Hall. destruct (Hall r Hin) as [enc Henc]. congruence.
    - split; [|eauto]. intros _. apply render_all_inr in Hr.
      apply Forall2_fmap_l in Hr. eapply Forall2_Forall_l; [exact Hr|].
      apply Forall_forall. intros enc _ r Hrenc. by exists enc. }
  split; [done|]. intros r e Hin He.
  assert (Hfail : ∃ e', format_batch X cfg b = inl e').
  { destruct (format_batch X cfg b) as [e'|body] eqn:Hb; [eauto|].
    assert (Hall : Forall (λ r, ∃ enc, json_encodeRaw X (Payload r) = inr enc) (Records b))
      by (apply Hiff; eauto).
    rewrite Forall_forall in Hall. destruct (Hall r Hin) as [enc Henc]. congruence. }
  destruct Hfail as [e' He']. by rewrite /sendBatch He' /=; eauto.
Qed.

(** ** Request headers *)

Lemma apply_headers_origin (K : string) kvs h vs :
  apply_headers h kvs !! K = Some vs →
  h !! K = Some vs
  ∨ ∃ kv, kv ∈ kvs ∧ CanonicalMIMEHeaderKey kv.1 = K ∧ vs = [kv.2].
Proof.
  intros Hl.
  destruct (decide (Exists (λ kv : string * string, CanonicalMIMEHeaderKey kv.1 = K) kvs))
    as [Hex|Hnot].
  - right. destruct (apply_headers_touched K kvs h Hex) as (kv & Hin & Hk & Hl').
    exists kv. split_and!; [done..|]. congruence.
  - left. rewrite apply_headers_untouched in Hl; [done|].
    apply Forall_forall. intros kv Hin Hk. apply Hnot, Exists_exists. eauto.
Qed.

(** X7. Every request carries a Content-Type field; every field of its
    header holds exactly one value; and every field is Content-Type or the
    canonical form of a configured key: nothing else is added. *)
Theorem request_headers_shape (X : Externals) (cfg : Config) :
  range_ok X →
  is_Some (request_headers X cfg !! "Content-Type")
  ∧ (∀ K vs, request_headers X cfg !! K = Some vs →
       (∃ v, vs = [v])
       ∧ (K = "Content-Type"
          ∨ ∃ k, is_Some (Headers cfg !! k) ∧ CanonicalMIMEHeaderKey k = K)).
Proof.
  intros Hok.
  assert (Hinit : ∀ K vs, Header_Set ∅ "Content-Type" "application/json" !! K = Some vs →
                          K = "Content-Type" ∧ vs = ["application/json"]).
  { intros K vs. rewrite /Header_Set canonical_content_type.
    intros [[<- <-]|[_ ?]]%lookup_insert_Some; [done|]. by rewrite lookup_empty in H. }
  split.
  - destruct (request_headers X cfg !! "Content-Type") as [vs|] eqn:Hl; [eauto|].
    exfalso. revert Hl. rewrite /request_headers.
    destruct (decide (Exists (λ kv : string * string,
                CanonicalMIMEHeaderKey kv.1 = "Content-Type") (range_order X (Headers cfg))))
      as [Hex|Hnot].
    + destruct (apply_headers_touched "Content-Type" _
                  (Header_Set ∅ "Content-Type" "application/json") Hex)
        as (kv & _ & _ & ->). done.
    + rewrite apply_headers_untouched.
      * by rewrite /Header_Set canonical_content_type lookup_insert_eq.
      * apply Forall_forall. intros kv Hin Hk. apply Hnot, Exists_exists. eauto.
  - intros K vs Hl. apply apply_headers_origin in Hl as [Hl|([k v] & Hin & Hk & ->)].
    + apply Hinit in Hl as [-> ->]. eauto.
    + split; [eauto|]. right. exists k. split; [|done].
      apply (range_order_elem X) in Hin; [|done]. by rewrite Hin.
Qed.

(** X8. When no two configured keys share a canonical form, the header of
    the request does not depend on the order in which the map is visited. *)
Theorem request_headers_order_independent (X X' : Externals) (cfg : Config) :
  range_ok X → range_ok X' →
  canonical_distinct (Headers cfg) →
  request_headers X cfg = request_headers X' cfg.
Proof.
  intros Hok Hok' Hdist. apply map_eq. intros K. rewrite /request_headers.
  set (h0 := Header_Set ∅ "Content-Type" "application/json").
  set (P := λ kv : string * string, CanonicalMIMEHeaderKey kv.1 = K).
  assert (Hsame : ∀ kv, kv ∈ range_order X (Headers cfg)
                        ↔ kv ∈ range_order X' (Headers cfg)).
  { intros [k v]. by rewrite !range_order_elem. }
  destruct (decide (Exists P (range_order X (Headers cfg)))) as [Hex|Hnot].
  - assert (Hex' : Exists P (range_order X' (Headers cfg))).
    { apply Exists_exists in Hex as (kv & Hin & Hk). apply Exists_exists.
      exists kv. split; [by apply Hsame|done]. }
    destruct (apply_headers_touched K _ h0 Hex) as ([k v] & Hin & Hk & Hl).
    destruct (apply_headers_touched K _ h0 Hex') as ([k' v'] & Hin' & Hk' & Hl').
    apply (range_order_elem X) in Hin; [|done].
    apply (range_order_elem X') in Hin'; [|done]. simpl in *.
    assert (k = k') as <-.
    { apply Hdist; [by rewrite Hin|by rewrite Hin'|congruence]. }
    etrans; [exact Hl|]. symmetry. etrans; [exact Hl'|]. congruence.
  - etrans; [apply apply_headers_untouched|symmetry; apply apply_headers_untouched].
    + apply Forall_forall. intros kv Hin Hk. apply Hnot, Exists_exists. eauto.
    + apply Forall_forall. intros kv Hin Hk. apply Hnot, Exists_exists.
      exists kv. split; [by apply Hsame|done].
Qed.

(** ** The life of a session *)

(** What [CreateSession] does to the registry. *)
Lemma CreateSession_registry X w mgr req :
  (CreateSession X w mgr req).1.2 = mgr
  ∨ ∃ cfg, json_Unmarshal X (ConfigJson req) = inr cfg ∧ Endpoint cfg ≠ ""
           ∧ (CreateSession X w mgr req).1.2
             = <[(session_newID X w).2
                 := created_session X (session_newID X w).2 req cfg]> mgr.
Proof.
  destruct (json_Unmarshal X (ConfigJson req)) as [e|cfg] eqn:Hcfg.
  { left. by rewrite (CreateSession_rejected_parse _ _ _ _ e). }
  destruct (decide (Endpoint cfg = "")) as [Hend|Hend].
  { left. by rewrite (CreateSession_rejected_endpoint _ _ _ _ cfg). }
  right. exists cfg. split_and!; [done..|]. by rewrite (CreateSession_accepted _ _ _ _ cfg).
Qed.

Lemma created_session_valid X id req cfg :
  json_Unmarshal X (ConfigJson req) = inr cfg → Endpoint cfg ≠ "" →
  session_valid X (created_session X id req cfg).
Proof. intros Hcfg Hend. by exists cfg. Qed.

(** X9. Creating a session and closing the returned identifier is a round
    trip: when the identifier drawn is not in use, the registry is again
    what it was before the two calls. *)
Theorem CreateSession_CloseSession_round_trip (X : Externals) (w : World X)
    (mgr : gmap string Session) (req : SessionCreateRequest) (cfg : Config) :
  json_Unmarshal X (ConfigJson req) = inr cfg →
  Endpoint cfg ≠ "" →
  mgr !! (session_newID X w).2 = None →
  (CreateSession X w mgr req).2 = inr (session_newID X w).2
  ∧ CloseSession (CreateSession X w mgr req).1.2 (session_newID X w).2 = (mgr, inr ()).
Proof.
  intros Hcfg Hend Hfresh. rewrite (CreateSession_accepted _ _ _ _ cfg) //=.
  split; [done|]. rewrite /CloseSession /Manager_Close lookup_insert_eq.
  by rewrite delete_insert_eq delete_id.
Qed.

Lemma reachable_lookup_valid X mgr id sess :
  reachable X mgr → mgr !! id = Some sess → ID sess = id ∧ session_valid X sess.
Proof.
  intros Hreach. revert id sess.
  induction Hreach as [|w mgr req _ IH|mgr id0 _ IH]; intros id sess Hl.
  - by rewrite lookup_empty in Hl.
  - destruct (CreateSession_registry X w mgr req) as [->|(cfg & Hcfg & Hend & ->)] in Hl.
    + by apply IH.
    + apply lookup_insert_Some in Hl as [[<- <-]|[_ Hl]]; [|by apply IH].
      split; [done|]. by apply created_session_valid.
  - rewrite /CloseSession /Manager_Close in Hl.
    destruct (mgr !! id0) eqn:Hid0; simpl in Hl; [|by apply IH].
    apply lookup_delete_Some in Hl as [_ Hl]. by apply IH.
Qed.

(** X10. Every session the handlers can leave in the registry is stored
    under its own identifier, has a configuration that decodes from the raw
    bytes it keeps and names a non-empty endpoint, and has a client with the
    timeout resolved from that configuration. *)
Theorem reachable_sessions_valid (X : Externals) (mgr : gmap string Session)
    (id : string) (sess : Session) :
  reachable X mgr →
  mgr !! id = Some sess →
  ID sess = id ∧ session_valid X sess.
Proof. apply reachable_lookup_valid. Qed.

Lemma resolve_session_valid X mgr req sess cfg :
  mgr !! WSessionId req = Some sess →
  Session_GetData sess "config" = Some (VConfig cfg) →
  Session_GetData sess "http_client" = Some (VClient (mkClient (resolve_timeout X cfg))) →
  resolve_session mgr init_WriteState req
  = Bound (mkWriteState (Some sess) cfg (Some (mkClient (resolve_timeout X cfg)))).
Proof.
  intros Hl Hc Hcl. by rewrite /resolve_session /= /Manager_Get Hl Hcl Hc.
Qed.

(** X11. On a registry the handlers built, the first message of a stream
    that names a stored session binds the stream to that session, to its
    stored configuration (whose endpoint is not empty) and to a client with
    the timeout resolved from it; a first message that names no stored
    session is an error. *)
Theorem Write_binds_stored_session (X : Externals) (mgr : gmap string Session)
    (req : WriteRequest) :
  reachable X mgr →
  match mgr !! WSessionId req with
  | Some sess =>
      ∃ cfg, resolve_session mgr init_WriteState req
             = Bound (mkWriteState (Some sess) cfg
                        (Some (mkClient (resolve_timeout X cfg))))
             ∧ Endpoint cfg ≠ ""
             ∧ json_Unmarshal X (SConfig sess) = inr cfg
  | None => ∃ err, resolve_session mgr init_WriteState req = ResolveError err
  end.
Proof.
  intros Hreach. destruct (mgr !! WSessionId req) as [sess|] eqn:Hl.
  - destruct (reachable_lookup_valid X mgr _ _ Hreach Hl) as [_ (cfg & Hcfg & Hend & Hc & Hcl)].
    exists cfg. split_and!; [|done..]. by apply resolve_session_valid.
  - eexists. by rewrite /resolve_session /= /Manager_Get Hl.
Qed.

(** X12. A batch written to a session just created is delivered with the
    configuration given at creation and with a client that has the timeout
    resolved from it: the run is one call of [sendBatch] with these, then
    the acknowledgment of its outcome. *)
Theorem Write_after_CreateSession (X : Externals) (w w2 : World X)
    (mgr : gmap string Session) (req : SessionCreateRequest) (cfg : Config)
    (packed : list byte) (b : Batch) (fin : option string) :
  json_Unmarshal X (ConfigJson req) = inr cfg →
  Endpoint cfg ≠ "" →
  batch_UnpackBatch X packed = inr b →
  Write X (CreateSession X w mgr req).1.2
        (mkStream [mkWriteRequest (session_newID X w).2 packed] fin) w2
  = let d := sendBatch X w2 (mkClient (resolve_timeout X cfg)) cfg b in
    send_then X d.1 [] (ack_of_result (result d.2))
              (λ w' sofar, (w', mkWriteRun sofar (Return fin))).
Proof.
  intros Hcfg Hend Hb. rewrite (CreateSession_accepted _ _ _ _ cfg) //=.
  rewrite /Write /=.
  rewrite (resolve_session_valid X _ _ (created_session X (session_newID X w).2 req cfg) cfg);
    [| |done|done].
  - rewrite Hb /=.
    destruct (sendBatch X w2 _ cfg b) as [w3 d]. simpl.
    by destruct (result d).
  - apply lookup_insert_eq.
Qed.

(** X13. A stream whose first message names a session that has been closed,
    and any stream with a message on a sink that has created no session,
    ends at that message with an error: nothing is acknowledged and nothing
    is delivered. *)
Theorem Write_without_session (X : Externals) (mgr : gmap string Session)
    (req : WriteRequest) (rest : list WriteRequest) (fin : option string) (w : World X) :
  (∃ err, Write X (CloseSession mgr (WSessionId req)).1 (mkStream (req :: rest) fin) w
          = (w, mkWriteRun [] (Return (Some err))))
  ∧ (∃ err, Write X NewHTTPSink (mkStream (req :: rest) fin) w
            = (w, mkWriteRun [] (Return (Some err)))).
Proof.
  split; eexists; rewrite /Write /= /resolve_session /= /Manager_Get.
  - by rewrite CloseSession_removes.
  - by rewrite /NewHTTPSink lookup_empty.
Qed.

(** ** The acknowledgments of a stream *)

Lemma Write_loop_all_acked X mgr msgs fin w st sofar :
  sends_accepted X →
  (is_Some (currentSession st) ∧ is_Some (cur_client st))
  ∨ (currentSession st = None ∧ registry_ok mgr
     ∧ ∀ req, head msgs = Some req → is_Some (mgr !! WSessionId req)) →
  length (acks (Write_loop X mgr msgs fin w st sofar).2)
  = (length sofar + length msgs)%nat
  ∧ ended (Write_loop X mgr msgs fin w st sofar).2 = Return fin.
Proof.
  intros Hsend. revert w st sofar.
  induction msgs as [|req rest IH]; intros w st sofar Hst.
  { simpl. split; [lia|done]. }
  assert (Hres : ∃ st', resolve_session mgr st req = Bound st'
                        ∧ is_Some (currentSession st') ∧ is_Some (cur_client st')).
  { destruct Hst as [[[sess Hcur] Hcl]|(Hcur & Hreg & Hhead)].
    - exists st. split; [by apply (resolve_session_bound _ _ _ sess)|].
      split; [by rewrite Hcur|done].
    - pose proof (resolve_session_ok mgr st req Hreg) as Hok.
      destruct (resolve_session mgr st req) as [st'|e|].
      + exists st'. split; [done|]. apply Hok. intros [? ?]. congruence.
      + destruct Hok as [_ Hnone]; [intros [? ?]; congruence|].
        destruct (Hhead req eq_refl) as [? ?]. congruence.
      + destruct Hok. intros [? ?]. congruence. }
  destruct Hres as (st' & Hres & Hcur' & [client Hcl']).
  assert (Hnext : ∀ w' ack,
            length (acks (Write_loop X mgr rest fin w' st' (sofar ++ [ack])).2)
            = (length sofar + S (length rest))%nat
            ∧ ended (Write_loop X mgr rest fin w' st' (sofar ++ [ack])).2 = Return fin).
  { intros w' ack. destruct (IH w' st' (sofar ++ [ack])) as [Hlen Hend].
    - left. split; [done|by exists client].
    - split; [|done]. rewrite Hlen length_app /=. lia. }
  simpl. rewrite Hres.
  destruct (batch_UnpackBatch X (PackedBatch req)) as [e|b].
  - rewrite /send_then. pose proof (Hsend w (mkAck false ("failed to unpack batch: " +:+ e))) as Hs.
    destruct (stream_Send X w _) as [w' [sendErr|]]; [done|]. apply Hnext.
  - rewrite Hcl'. destruct (sendBatch X w client (cur_cfg st') b) as [w1 d].
    destruct (result d) as [err|]; rewrite /send_then.
    + pose proof (Hsend w1 (mkAck false err)) as Hs.
      destruct (stream_Send X w1 _) as [w' [sendErr|]]; [done|]. apply Hnext.
    + pose proof (Hsend w1 (mkAck true "")) as Hs.
      destruct (stream_Send X w1 _) as [w' [sendErr|]]; [done|]. apply Hnext.
Qed.

(** X14. On a registry the handlers built, a stream whose first message
    names a stored session and whose acknowledgments are all accepted gets
    exactly one acknowledgment per message, and the handler ends only when
    the stream does: with nil at the end of the stream, or with the receive
    error. *)
Theorem Write_one_ack_per_message (X : Externals) (mgr : gmap string Session)
    (s : Stream) (w : World X) :
  reachable X mgr →
  sends_accepted X →
  (∀ req, head (incoming s) = Some req → is_Some (mgr !! WSessionId req)) →
  length (acks (Write X mgr s w).2) = length (incoming s)
  ∧ ended (Write X mgr s w).2 = Return (ending s).
Proof.
  intros Hreach Hsend Hhead.
  destruct (Write_loop_all_acked X mgr (incoming s) (ending s) w init_WriteState [] Hsend)
    as [Hlen Hend]; [|done].
  right. split; [done|]. split; [by apply (reachable_registry_ok X)|done].
Qed.

(** X15. Whatever happens, no message gets more than one acknowledgment:
    a run never records more acknowledgments than it received messages. *)
Theorem Write_at_most_one_ack_per_message (X : Externals) (mgr : gmap string Session)
    (s : Stream) (w : World X) :
  (length (acks (Write X mgr s w).2) ≤ length (incoming s))%nat.
Proof. apply (Write_loop_acks_bound X mgr (incoming s) (ending s) w init_WriteState []). Qed.

Lemma Write_loop_prefix X mgr msgs more fin fin' w st sofar :
  acks (Write_loop X mgr msgs fin w st sofar).2
  `prefix_of` acks (Write_loop X mgr (msgs ++ more) fin' w st sofar).2.
Proof.
  revert w st sofar. induction msgs as [|req rest IH]; intros w st sofar.
  { rewrite (Write_loop_sofar X mgr ([] ++ more)) /=. by apply prefix_app_r. }
  simpl. destruct (resolve_session mgr st req) as [st'|e|]; [|done..].
  destruct (batch_UnpackBatch X (PackedBatch req)) as [e|b].
  - rewrite /send_then. destruct (stream_Send _ _ _) as [w' [sendErr|]]; [done|].
    apply IH.
  - destruct (cur_client st') as [client|]; [|done].
    destruct (sendBatch X w client (cur_cfg st') b) as [w1 d].
    destruct (result d) as [err|]; rewrite /send_then;
      destruct (stream_Send _ _ _) as [w' [sendErr|]]; try done; apply IH.
Qed.

(** X16. The acknowledgments of the messages received so far do not depend
    on what the stream brings later: the acknowledgments of a stream are the
    first acknowledgments of every stream that extends it. *)
Theorem Write_acks_causal (X : Externals) (mgr : gmap string Session)
    (msgs more : list WriteRequest) (fin fin' : option string) (w : World X) :
  acks (Write X mgr (mkStream msgs fin) w).2
  `prefix_of` acks (Write X mgr (mkStream (msgs ++ more) fin') w).2.
Proof. apply Write_loop_prefix. Qed.

Lemma Write_loop_ignores_ids X mgr msgs msgs' fin w st sofar :
  is_Some (currentSession st) →
  map PackedBatch msgs = map PackedBatch msgs' →
  Write_loop X mgr msgs fin w st sofar = Write_loop X mgr msgs' fin w st sofar.
Proof.
  intros [sess Hcur]. revert msgs' w sofar.
  induction msgs as [|req rest IH]; intros [|req' rest'] w sofar Hmap; try done.
  simpl in Hmap. injection Hmap as Hp Hrest. simpl.
  rewrite !(resolve_session_bound _ _ _ sess) // Hp.
  destruct (batch_UnpackBatch X (PackedBatch req')) as [e|b].
  - rewrite /send_then. destruct (stream_Send _ _ _) as [w' [sendErr|]]; [done|].
    by apply IH.
  - destruct (cur_client st) as [client|]; [|done].
    destruct (sendBatch X w client (cur_cfg st) b) as [w1 d].
    destruct (result d) as [err|]; rewrite /send_then;
      destruct (stream_Send _ _ _) as [w' [sendErr|]]; try done; by apply IH.
Qed.

(** X17. The session is resolved once, from the first message: the session
    identifiers of the later messages are never read, so two streams with
    the same first message and the same packed batches run alike. *)
Theorem Write_session_bound_once (X : Externals) (mgr : gmap string Session)
    (req : WriteRequest) (rest rest' : list WriteRequest) (fin : option string)
    (w : World X) :
  map PackedBatch rest = map PackedBatch rest' →
  Write X mgr (mkStream (req :: rest) fin) w = Write X mgr (mkStream (req :: rest') fin) w.
Proof.
  intros Hmap. rewrite /Write /=.
  destruct (resolve_session mgr init_WriteState req) as [st'|e|] eqn:Hres; [|done..].
  apply resolve_session_stays_bound in Hres.
  destruct (batch_UnpackBatch X (PackedBatch req)) as [e|b].
  - rewrite /send_then. destruct (stream_Send _ _ _) as [w' [sendErr|]]; [done|].
    by apply Write_loop_ignores_ids.
  - destruct (cur_client st') as [client|]; [|done].
    destruct (sendBatch X w client (cur_cfg st') b) as [w1 d].
    destruct (result d) as [err|]; rewrite /send_then;
      destruct (stream_Send _ _ _) as [w' [sendErr|]]; try done;
      by apply Write_loop_ignores_ids.
Qed.

(** X18. A batch that decodes but is answered with a status of 400 or more
    gets one negative acknowledgment whose text holds the status, and the
    loop goes on with the next message in the same state. *)
Theorem Write_http_failure_is_nack (X : Externals) (mgr : gmap string Session)
    (req : WriteRequest) (rest : list WriteRequest) (fin : option string)
    (w w1 w' : World X) (st st' : WriteState) (sofar : list AckResponse)
    (b : Batch) (client : Client) (body : list byte) (resp : Response) :
  resolve_session mgr st req = Bound st' →
  batch_UnpackBatch X (PackedBatch req) = inr b →
  cur_client st' = Some client →
  format_batch X (cur_cfg st') b = inr body →
  http_NewRequest_check X (request_method (cur_cfg st')) (Endpoint (cur_cfg st')) = None →
  client_Do X w client
    (mkRequest (request_method (cur_cfg st')) (Endpoint (cur_cfg st')) body
               (request_headers X (cur_cfg st')))
  = (w1, inr resp) →
  400 ≤ StatusCode resp →
  stream_Send X w1
    (mkAck false ("HTTP " +:+ fmt_d (StatusCode resp) +:+ ": "
                  +:+ string_of_bytes (BodyRead resp).1))
  = (w', None) →
  Write_loop X mgr (req :: rest) fin w st sofar
  = Write_loop X mgr rest fin w' st'
      (sofar ++ [mkAck false ("HTTP " +:+ fmt_d (StatusCode resp) +:+ ": "
                              +:+ string_of_bytes (BodyRead resp).1)])
  ∧ contains ("HTTP " +:+ fmt_d (StatusCode resp) +:+ ": "
              +:+ string_of_bytes (BodyRead resp).1)
             (fmt_d (StatusCode resp)).
Proof.
  intros Hres Hb Hcl Hf Hn Hdo Hst Hsend. split; [|apply contains_intro].
  simpl. rewrite Hres Hb Hcl.
  rewrite (sendBatch_completed X w client (cur_cfg st') b body w1 resp) //.
  rewrite /= /classify decide_True //=.
  by rewrite (send_then_accepted X w1 w').
Qed.

(** X19. When the stream refuses the acknowledgments, the handler ends at
    the first message: no acknowledgment is recorded, the outcome is not a
    nil return, and the messages after the first are never looked at. *)
Theorem Write_stops_when_send_refused (X : Externals) (mgr : gmap string Session)
    (req : WriteRequest) (rest rest' : list WriteRequest) (fin fin' : option string)
    (w : World X) :
  sends_refused X →
  acks (Write X mgr (mkStream (req :: rest) fin) w).2 = []
  ∧ ended (Write X mgr (mkStream (req :: rest) fin) w).2 ≠ Return None
  ∧ Write X mgr (mkStream (req :: rest) fin) w
    = Write X mgr (mkStream (req :: rest') fin') w.
Proof.
  intros Hrefuse. rewrite /Write /=.
  destruct (resolve_session mgr init_WriteState req) as [st'|e|]; [|done..].
  destruct (batch_UnpackBatch X (PackedBatch req)) as [e|b].
  - rewrite /send_then.
    pose proof (Hrefuse w (mkAck false ("failed to unpack batch: " +:+ e))) as [x Hx].
    destruct (stream_Send X w _) as [w' [sendErr|]]; [done|]. simpl in Hx. done.
  - destruct (cur_client st') as [client|]; [|done].
    destruct (sendBatch X w client (cur_cfg st') b) as [w1 d].
    destruct (result d) as [err|]; rewrite /send_then.
    + pose proof (Hrefuse w1 (mkAck false err)) as [x Hx].
      destruct (stream_Send X w1 _) as [w' [sendErr|]]; [done|]. simpl in Hx. done.
    + pose proof (Hrefuse w1 (mkAck true "")) as [x Hx].
      destruct (stream_Send X w1 _) as [w' [sendErr|]]; [done|]. simpl in Hx. done.
Qed.

Lemma Write_loop_acks_well_formed X mgr msgs fin w st sofar :
  Forall ack_well_formed sofar →
  Forall ack_well_formed (acks (Write_loop X mgr msgs fin w st sofar).2).
Proof.
  revert w st sofar. induction msgs as [|req rest IH]; intros w st sofar Hwf; [done|].
  simpl. destruct (resolve_session mgr st req) as [st'|e|]; [|done..].
  destruct (batch_UnpackBatch X (PackedBatch req)) as [e|b].
  - rewrite /send_then. destruct (stream_Send _ _ _) as [w' [sendErr|]]; [done|].
    apply IH, Forall_app. split; [done|]. constructor; [|done]. right. split; [done|].
    by apply (has_prefix_nonempty "failed to unpack batch: "); [|apply has_prefix_intro].
  - destruct (cur_client st') as [client|]; [|done].
    destruct (sendBatch X w client (cur_cfg st') b) as [w1 d] eqn:Hs.
    destruct (result d) as [err|] eqn:Hr; rewrite /send_then;
      destruct (stream_Send _ _ _) as [w' [sendErr|]]; try done;
      apply IH, Forall_app; (split; [done|]); (constructor; [|done]).
    + right. split; [done|].
      apply (sendBatch_error_nonempty X w client (cur_cfg st') b). by rewrite Hs.
    + by left.
Qed.

(** X20. Every acknowledgment of a run is either positive with an empty
    error text or negative with a non-empty one. *)
Theorem Write_acks_well_formed (X : Externals) (mgr : gmap string Session)
    (s : Stream) (w : World X) :
  Forall ack_well_formed (acks (Write X mgr s w).2).
Proof. by apply Write_loop_acks_well_formed. Qed.

(** * The further properties at concrete inputs *)

Lemma newline_free_check (p : list byte) :
  forallb (λ c, negb (Byte.eqb c byte_newline)) p = true → newline_free p.
Proof.
  intros Hall Hin. rewrite forallb_forall in Hall.
  apply list_elem_of_In, Hall in Hin.
  by vm_compute in Hin.
Qed.

Lemma demo_sends_accepted : sends_accepted Demo.X.
Proof. by intros w ack. Qed.

Lemma demo_sends_refused : sends_refused X_refusing.
Proof. intros w ack. by eexists. Qed.

Lemma demo_reversed_range_ok : range_ok X_reversed.
Proof. intros m. apply reverse_Permutation. Qed.

Lemma demo_mgr1_created :
  Demo.mgr1 = (CreateSession Demo.X Demo.w0 ∅ (Demo.create_req Demo.plain_json)).1.2.
Proof.
  rewrite (CreateSession_accepted _ _ _ _ Demo.plain_cfg); [done|by vm_compute|done].
Qed.

Lemma demo_mgr1_reachable : reachable Demo.X Demo.mgr1.
Proof. rewrite demo_mgr1_created. apply reach_create, reach_new. Qed.

(** A method that is not a token: nothing is sent. *)
Lemma sendBatch_local_failure_witness :
  sent (sendBatch Demo.X Demo.w0 Demo.client30 bad_method_cfg Demo.batch_ab).2 = None
  ∧ (sendBatch Demo.X Demo.w0 Demo.client30 bad_method_cfg Demo.batch_ab).1 = Demo.w0.
Proof.
  assert (Hs : sent (sendBatch Demo.X Demo.w0 Demo.client30 bad_method_cfg
                               Demo.batch_ab).2 = None) by (vm_compute; reflexivity).
  split; [exact Hs|].
  exact (proj1 (proj2 (sendBatch_local_failure Demo.X Demo.w0 Demo.client30
                         bad_method_cfg Demo.batch_ab) Hs)).
Defined.

(** The error for a 500 answer starts with "HTTP ". *)
Lemma sendBatch_error_wording_witness :
  result (sendBatch Demo.X (Demo.mkWorld [inr Demo.err_500] 0) Demo.client30
            Demo.plain_cfg Demo.batch_ab).2 = Some "HTTP 500: boom"
  ∧ (∃ p, p ∈ sendBatch_error_prefixes ∧ has_prefix p "HTTP 500: boom")
  ∧ "HTTP 500: boom" ≠ "".
Proof.
  assert (Hr : result (sendBatch Demo.X (Demo.mkWorld [inr Demo.err_500] 0) Demo.client30
                         Demo.plain_cfg Demo.batch_ab).2 = Some "HTTP 500: boom")
    by (vm_compute; reflexivity).
  split; [exact Hr|].
  exact (sendBatch_error_wording Demo.X _ _ _ _ _ Hr).
Defined.

(** The two records of the scenario, read back from the body. *)
Lemma ndjson_round_trip_witness :
  split_lines [] (format_ndjson Demo.batch_ab)
  = [slice_bytes (Payload Demo.rec_a); slice_bytes (Payload Demo.rec_b)].
Proof.
  apply (ndjson_round_trip Demo.batch_ab).
  repeat constructor; apply newline_free_check; vm_compute; reflexivity.
Defined.

(** One empty payload among good ones: the batch is not sent. *)
Lemma json_array_all_or_nothing_witness :
  BatchFormat Demo.plain_cfg ≠ "ndjson"
  ∧ sent (sendBatch Demo.X Demo.w0 Demo.client30 Demo.plain_cfg
            (mkBatch [Demo.rec_a; rec_empty; Demo.rec_b])).2 = None.
Proof.
  assert (Hne : BatchFormat Demo.plain_cfg ≠ "ndjson") by discriminate.
  split; [exact Hne|].
  apply (proj2 (json_array_all_or_nothing Demo.X Demo.w0 Demo.client30 Demo.plain_cfg
                  (mkBatch [Demo.rec_a; rec_empty; Demo.rec_b]) Hne)
           rec_empty "unexpected end of JSON input").
  - right. left.
  - reflexivity.
Defined.

(** The scenario's header has its Content-Type. *)
Lemma request_headers_shape_witness :
  is_Some (request_headers Demo.X Demo.scenario_cfg !! "Content-Type").
Proof.
  exact (proj1 (request_headers_shape Demo.X Demo.scenario_cfg demo_range_ok)).
Defined.

Lemma two_headers_distinct : canonical_distinct (Headers two_headers_cfg).
Proof.
  intros k1 k2 [v1 H1] [v2 H2] Hc.
  change (Headers two_headers_cfg)
    with (<["X-Tenant" := "t1"]> ({["authorization" := "Bearer k"]} : gmap string string))
    in H1, H2.
  apply lookup_insert_Some in H1 as [[<- _]|[_ [<- _]%lookup_singleton_Some]];
    apply lookup_insert_Some in H2 as [[<- _]|[_ [<- _]%lookup_singleton_Some]];
    try done; vm_compute in Hc; discriminate.
Qed.

(** Two headers, visited in either order. *)
Lemma request_headers_order_witness :
  request_headers Demo.X two_headers_cfg = request_headers X_reversed two_headers_cfg.
Proof.
  exact (request_headers_order_independent Demo.X X_reversed two_headers_cfg
           demo_range_ok demo_reversed_range_ok two_headers_distinct).
Defined.

(** Create on the empty registry, then close: empty again. *)
Lemma CreateSession_CloseSession_witness :
  CloseSession (CreateSession Demo.X Demo.w0 ∅ (Demo.create_req Demo.plain_json)).1.2
               "sess-0"
  = (∅, inr ()).
Proof.
  apply (CreateSession_CloseSession_round_trip Demo.X Demo.w0 ∅
           (Demo.create_req Demo.plain_json) Demo.plain_cfg).
  - vm_compute; reflexivity.
  - discriminate.
  - reflexivity.
Defined.

(** The session of the one-session registry. *)
Lemma reachable_sessions_witness :
  ID (created_session Demo.X "sess-0" (Demo.create_req Demo.plain_json) Demo.plain_cfg)
  = "sess-0"
  ∧ session_valid Demo.X
      (created_session Demo.X "sess-0" (Demo.create_req Demo.plain_json) Demo.plain_cfg).
Proof.
  apply (reachable_sessions_valid Demo.X Demo.mgr1 "sess-0" _ demo_mgr1_reachable).
  vm_compute; reflexivity.
Defined.

(** The first message of a stream for the stored session binds it. *)
Lemma Write_binds_witness :
  ∃ cfg, resolve_session Demo.mgr1 init_WriteState (mkWriteRequest "sess-0" [xff])
         = Bound (mkWriteState
                    (Some (created_session Demo.X "sess-0"
                             (Demo.create_req Demo.plain_json) Demo.plain_cfg))
                    cfg (Some (mkClient (resolve_timeout Demo.X cfg))))
         ∧ Endpoint cfg ≠ "".
Proof.
  pose proof (Write_binds_stored_session Demo.X Demo.mgr1
                (mkWriteRequest "sess-0" [xff]) demo_mgr1_reachable) as H.
  assert (Hl : Demo.mgr1 !! WSessionId (mkWriteRequest "sess-0" [xff])
               = Some (created_session Demo.X "sess-0"
                         (Demo.create_req Demo.plain_json) Demo.plain_cfg))
    by (vm_compute; reflexivity).
  rewrite Hl in H. destruct H as (cfg & Hb & Hend & _). by exists cfg.
Defined.

(** One batch written to a session just created, answered with 200. *)
Lemma Write_after_CreateSession_witness :
  Write Demo.X (CreateSession Demo.X Demo.w0 ∅ (Demo.create_req Demo.plain_json)).1.2
        (mkStream [mkWriteRequest "sess-0" (Demo.bytes "1")] None) Demo.w0
  = (Demo.mkWorld [] 0, mkWriteRun [mkAck true ""] (Return None)).
Proof.
  etrans.
  - apply (Write_after_CreateSession Demo.X Demo.w0 Demo.w0 ∅
             (Demo.create_req Demo.plain_json) Demo.plain_cfg (Demo.bytes "1")
             (mkBatch [mkRec (Some (Demo.bytes "1"))]) None).
    + vm_compute; reflexivity.
    + discriminate.
    + reflexivity.
  - vm_compute; reflexivity.
Defined.

(** A message that does not decode and one that does: two acknowledgments. *)
Lemma Write_one_ack_witness :
  length (acks (Write Demo.X Demo.mgr1
                  (mkStream [mkWriteRequest "sess-0" [xff];
                             mkWriteRequest "sess-0" (Demo.bytes "1")] None)
                  Demo.w0).2) = 2%nat
  ∧ ended (Write Demo.X Demo.mgr1
             (mkStream [mkWriteRequest "sess-0" [xff];
                        mkWriteRequest "sess-0" (Demo.bytes "1")] None)
             Demo.w0).2 = Return None.
Proof.
  apply (Write_one_ack_per_message Demo.X Demo.mgr1
           (mkStream [mkWriteRequest "sess-0" [xff];
                      mkWriteRequest "sess-0" (Demo.bytes "1")] None)
           Demo.w0 demo_mgr1_reachable demo_sends_accepted).
  intros req [= <-]. vm_compute. eauto.
Defined.

(** The second message names another session: it runs as before. *)
Lemma Write_session_bound_once_witness :
  Write Demo.X Demo.mgr1
    (mkStream [mkWriteRequest "sess-0" [xff]; mkWriteRequest "sess-0" (Demo.bytes "1")] None)
    Demo.w0
  = Write Demo.X Demo.mgr1
      (mkStream [mkWriteRequest "sess-0" [xff]; mkWriteRequest "sess-7" (Demo.bytes "1")] None)
      Demo.w0.
Proof.
  apply (Write_session_bound_once Demo.X Demo.mgr1 (mkWriteRequest "sess-0" [xff])
           [mkWriteRequest "sess-0" (Demo.bytes "1")]
           [mkWriteRequest "sess-7" (Demo.bytes "1")] None Demo.w0).
  reflexivity.
Defined.

(** A batch answered with 500: one negative acknowledgment naming it. *)
Lemma Write_http_failure_witness :
  Write_loop Demo.X Demo.mgr1 [mkWriteRequest "sess-0" (Demo.bytes "1")] None
    (Demo.mkWorld [inr Demo.err_500] 0) init_WriteState []
  = Write_loop Demo.X Demo.mgr1 [] None (Demo.mkWorld [] 0)
      (mkWriteState
         (Some (created_session Demo.X "sess-0" (Demo.create_req Demo.plain_json)
                                Demo.plain_cfg))
         Demo.plain_cfg (Some Demo.client30))
      [mkAck false "HTTP 500: boom"].
Proof.
  apply (Write_http_failure_is_nack Demo.X Demo.mgr1
           (mkWriteRequest "sess-0" (Demo.bytes "1")) [] None
           (Demo.mkWorld [inr Demo.err_500] 0) (Demo.mkWorld [] 0) (Demo.mkWorld [] 0)
           init_WriteState _ [] (mkBatch [mkRec (Some (Demo.bytes "1"))]) Demo.client30
           ([byte_lbracket] ++ Demo.bytes "1" ++ [byte_rbracket]) Demo.err_500);
    try reflexivity.
  vm_compute. discriminate.
Defined.

(** A stream that refuses the acknowledgments. *)
Lemma Write_send_refused_witness :
  acks (Write X_refusing Demo.mgr1
          (mkStream [mkWriteRequest "sess-0" [xff];
                     mkWriteRequest "sess-0" (Demo.bytes "1")] None) Demo.w0).2 = [].
Proof.
  exact (proj1 (Write_stops_when_send_refused X_refusing Demo.mgr1
                  (mkWriteRequest "sess-0" [xff])
                  [mkWriteRequest "sess-0" (Demo.bytes "1")] [] None None Demo.w0
                  demo_sends_refused)).
Defined.

(** A run on the one-session registry does not panic. *)
Lemma Write_never_panics_witness :
  ended (Write Demo.X Demo.mgr1
           (mkStream [mkWriteRequest "sess-0" (Demo.bytes "1")] None) Demo.w0).2 ≠ Panic.
Proof.
  exact (Write_never_panics Demo.X Demo.mgr1
           (mkStream [mkWriteRequest "sess-0" (Demo.bytes "1")] None) Demo.w0
           demo_mgr1_reachable).
Defined.
